(** * io-display: display contexts over display workers

    A shallow embedding of the coordinator side of [@cisl/io-display]:
    the [DisplayContext] class ([displaycontext.js], and its TypeScript
    twin) and the [DisplayContextFactory] class (TypeScript).

    Promises are run to quiescence: a method is a function from the state
    it starts in to the way its promise settles (or fails to settle) and
    the state reached when the work it started has finished.  The broker,
    the key-value store and the display workers are an explicit [World]:

    - the queue listing and the store always answer; a call to a worker
      is answered or fails;
    - a worker's answer depends on the queue and the request only;
    - one client runs at a time: no other process writes the store or
      removes a queue while a method runs.

    Objects received from workers are records with the fields the
    coordinator reads; an object used as a dictionary, and a [Map], is the
    list of its entries in iteration order. *)

From Stdlib Require Import String List ZArith Bool Lia.
From stdpp Require Import base option strings gmap list.

Local Open Scope string_scope.
Local Open Scope list_scope.

(* ===================================================================== *)
(** * JavaScript strings *)
(* ===================================================================== *)

Module JsString.

(** [s.indexOf(pat) > -1] *)
Definition includes (pat s : string) : bool :=
  match String.index 0 pat s with
  | Some _ => true
  | None => false
  end.

(** [s.replace(pat, by)] with a string pattern: the first occurrence only. *)
Definition replace (pat by_ s : string) : string :=
  match String.index 0 pat s with
  | Some i =>
      String.substring 0 i s +:+ by_ +:+
      String.substring (i + String.length pat)
                       (String.length s - (i + String.length pat)) s
  | None => s
  end.

(** ['lit' + v] where [v] may be [undefined]. *)
Definition of_optional (v : option string) : string :=
  match v with
  | Some s => s
  | None => "undefined"
  end.

(** [if (v)] on an optional string: present and not empty. *)
Definition truthy (v : option string) : bool :=
  match v with
  | Some s => negb (String.eqb s "")
  | None => false
  end.

End JsString.

(* ===================================================================== *)
(** * JavaScript [Map] with string keys

    Entries are kept in insertion order; [set] on a key that is present
    replaces the value where it stands, [delete] takes the entry out. *)
(* ===================================================================== *)

Module JsMap.
Section JsMap.
Context {V : Type}.

Definition t := list (string * V).

Definition clear : t := [].

Fixpoint get (k : string) (m : t) : option V :=
  match m with
  | [] => None
  | (k', v) :: m' => if String.eqb k k' then Some v else get k m'
  end.

Definition has (k : string) (m : t) : bool :=
  match get k m with
  | Some _ => true
  | None => false
  end.

Fixpoint set (k : string) (v : V) (m : t) : t :=
  match m with
  | [] => [(k, v)]
  | (k', v') :: m' =>
      if String.eqb k k' then (k, v) :: m' else (k', v') :: set k v m'
  end.

Definition delete (k : string) (m : t) : t :=
  List.filter (fun e => negb (String.eqb k (fst e))) m.

Definition keys (m : t) : list string := List.map fst m.

Definition values (m : t) : list V := List.map snd m.

(** The keys of the entries that satisfy [p], in iteration order:
    [for (let [k, v] of m) if (p(v)) out.push(k)]. *)
Definition keys_where (p : V -> bool) (m : t) : list string :=
  keys (List.filter (fun e => p (snd e)) m).

(** [ks.forEach(k => m.delete(k))] *)
Definition delete_all (ks : list string) (m : t) : t :=
  List.fold_left (fun acc k => delete k acc) ks m.

(** A [Map] holds each key once. *)
Definition wf (m : t) : Prop := List.NoDup (keys m).

End JsMap.
Arguments t : clear implicits.
End JsMap.

(* ===================================================================== *)
(** * Data model *)
(* ===================================================================== *)

(** The [window_settings] typedef: one entry of the caller-declared layout, or of a
    worker's [get-window-bounds] reply.  [windowName], [template] and
    [displayContext] are the fields the coordinator writes into it. *)
Record WindowSettings := {
  ws_displayName : option string;
  ws_windowName : option string;
  ws_template : option string;
  ws_displayContext : option string;
  ws_x : Z;
  ws_y : Z;
  ws_width : Z;
  ws_height : Z
}.

(** The options a [DisplayWindow] is constructed from: one entry of the
    [windows] object of a worker's state, or a [create-window] reply. *)
Record DisplayWindowOptions := {
  dwo_windowName : string;
  dwo_displayName : string;
  dwo_displayContext : option string;
  dwo_x : Z;
  dwo_y : Z;
  dwo_width : Z;
  dwo_height : Z
}.

(** [class DisplayWindow] ([displaywindow.js]): its fields.  In the
    TypeScript class [displayContext] is the context object itself. *)
Record DisplayWindow := {
  dw_windowName : string;
  dw_displayName : string;
  dw_displayContext : option string;
  dw_template : string;
  dw_x : Z;
  dw_y : Z;
  dw_width : Z;
  dw_height : Z
}.

(** [new DisplayWindow(io, options)] *)
Definition new_DisplayWindow (options : DisplayWindowOptions) : DisplayWindow :=
  {| dw_windowName := dwo_windowName options;
     dw_displayName := dwo_displayName options;
     dw_displayContext := dwo_displayContext options;
     dw_template := "index.html";
     dw_x := dwo_x options;
     dw_y := dwo_y options;
     dw_width := dwo_width options;
     dw_height := dwo_height options |}.

(** [class ViewObject] ([viewobject.js]): its fields, which are also the
    options it is constructed from and the shape of a [create-viewobj]
    reply. *)
Record ViewObject := {
  view_id : string;
  vo_displayName : string;
  vo_windowName : string;
  vo_displayContext : option string
}.

(** [viewobject_options] as [createViewObject] receives and fills them. *)
Record viewobject_options := {
  voo_url : string;
  voo_displayContext : option string;
  voo_windowName : option string;
  voo_displayName : option string
}.

(** A worker's reply to [get-dw-context-windows-vbo]: [windows] maps a
    window name to the window's options, [viewObjects] maps a view id to
    the name of its window.  A field that is missing (or otherwise falsy)
    is [None]; the lists give the properties in [Object.keys] order. *)
Record WorkerState := {
  st_windows : option (list (string * DisplayWindowOptions));
  st_viewObjects : option (list (string * string))
}.

(** [display_rpc_result]: the fields of a status reply that are read. *)
Record display_rpc_result := {
  res_command : string;
  res_status : string;
  res_displayName : string
}.

(** A worker's reply to [get-display-bounds]. *)
Record DisplayBounds := {
  db_displayName : string;
  db_bounds : Z * Z * Z * Z
}.

(* ===================================================================== *)
(** * The broker, the store and the workers *)
(* ===================================================================== *)

(** The request documents sent to display workers: [command] and its
    [options]. *)
Inductive Command :=
| get_dw_context_windows_vbo (context : string)
| get_window_bounds (context : string)
| set_display_context (context : string)
| hide_display_context (context : string)
| close_display_context (context : string)
| create_window (options : WindowSettings)
| create_viewobj (options : viewobject_options)
| reload (id : string)
| get_display_bounds
| hide_all_windows.

(** The parsed reply to each request, at the shape the coordinator reads. *)
Definition Reply (cmd : Command) : Type :=
  match cmd with
  | get_dw_context_windows_vbo _ => WorkerState
  | get_window_bounds _ => list (string * WindowSettings)
  | create_window _ => DisplayWindowOptions
  | create_viewobj _ => ViewObject
  | get_display_bounds => DisplayBounds
  | _ => display_rpc_result
  end.

(** One entry of the broker's queue listing ([getQueues]). *)
Record Queue := {
  q_name : string;
  q_state : string
}.

(** The argument of the [displayWorkerQuitHandler] callback. *)
Record QuitMessage := {
  closedDisplay : string;
  closedWindows : list string;
  closedViewObjects : list string
}.

(** The documents published on topics. *)
Inductive Payload :=
| displayContextChanged (displayContext : string) (lastDisplayContext : option string)
| displayContextClosed (details : list display_rpc_result)
| displayContextCreated (displayContext : string).

(** What the coordinator does to the outside, in the order it does it. *)
Inductive Event :=
| Rpc (queue : string) (cmd : Command)
| Topic (topic : string) (payload : Payload)
| QuitHandlerCalled (handler : string) (obj : QuitMessage).

(** [io]: the broker's queue listing, the workers behind the queues (a
    worker answers a request, or the call fails), the shared key-value
    store, and the trace of what has been sent so far. *)
Record World := {
  queues : list Queue;
  workers : forall (queue : string) (cmd : Command), option (Reply cmd);
  store : gmap string string;
  trace : list Event
}.

Definition with_store (f : gmap string string -> gmap string string) (w : World) : World :=
  {| queues := queues w; workers := workers w; store := f (store w); trace := trace w |}.

Definition emit (e : Event) (w : World) : World :=
  {| queues := queues w; workers := workers w; store := store w; trace := trace w ++ [e] |}.

Inductive Error :=
| NoDisplayWorkerFound (cmd : Command)
| CannotInitialize
| WindowNameNotDefined (windowName : string)
| NoDisplayContextActive
| CallFailed (queue : string) (cmd : Command).

(** How a promise ends: resolved with a value, rejected with an error, or
    never settled. *)
Inductive outcome (A : Type) :=
| Resolved (a : A)
| Rejected (e : Error)
| Pending.
Arguments Resolved {A} a.
Arguments Rejected {A} e.
Arguments Pending {A}.

(** An asynchronous method over a state [S]. *)
Definition M (S A : Type) : Type := S -> outcome A * S.

Definition ret {S A} (a : A) : M S A := fun s => (Resolved a, s).

(** [p.then(k)] *)
Definition bind {S A B} (p : M S A) (k : A -> M S B) : M S B :=
  fun s =>
    match p s with
    | (Resolved a, s') => k a s'
    | (Rejected e, s') => (Rejected e, s')
    | (Pending, s') => (Pending, s')
    end.

Notation "x <- p ;; k" := (bind p (fun x => k))
  (at level 100, p at next level, right associativity).

(** How [Promise.all] settles from the way its members settle: it rejects
    as soon as one member rejects, and resolves only when all have.  When
    several members reject, JavaScript reports the one that rejects first
    in time; the replies carry no time here, and the rejection reported is
    that of the member that stands first.  Which of several rejections is
    reported is therefore a convention of the model, and the theorems
    below do not depend on it: they say of a rejection at most that it is
    that of a member that rejected. *)
Definition all_settle {A} (o : outcome A) (os : outcome (list A)) : outcome (list A) :=
  match o, os with
  | Rejected e, _ => Rejected e
  | _, Rejected e => Rejected e
  | Pending, _ => Pending
  | _, Pending => Pending
  | Resolved a, Resolved l => Resolved (a :: l)
  end.

(** [Promise.all(_ps)]: every member of [_ps] has been started, in order,
    before the result is awaited. *)
Fixpoint Promise_all {S A} (_ps : list (M S A)) : M S (list A) :=
  fun s =>
    match _ps with
    | [] => (Resolved [], s)
    | p :: rest =>
        let (o, s1) := p s in
        let (os, s2) := Promise_all rest s1 in
        (all_settle o os, s2)
    end.

Module Mq.

(** [io.mq.call(queue, JSON.stringify(cmd))], reply parsed. *)
Definition call (queue : string) (cmd : Command) : M World (Reply cmd) :=
  fun w =>
    (match workers w queue cmd with
     | Some r => Resolved r
     | None => Rejected (CallFailed queue cmd)
     end,
     emit (Rpc queue cmd) w).

(** [io.mq.publishTopic(topic, payload)] *)
Definition publishTopic (topic : string) (payload : Payload) (w : World) : World :=
  emit (Topic topic payload) w.

End Mq.

Module Store.

Definition activeDisplayContext : string := "display:activeDisplayContext".

(** [io.store.getState(key)]: [null] when the key is absent. *)
Definition getState (key : string) (w : World) : option string :=
  store w !! key.

(** [io.store.setState(key, value)] *)
Definition setState (key value : string) (w : World) : World :=
  with_store (fun st => <[key := value]> st) w.

(** [io.store.getset(key, value)]: the old value is read and the new one
    written in one step. *)
Definition getset (key value : string) (w : World) : option string * World :=
  (store w !! key, with_store (fun st => <[key := value]> st) w).

(** [io.store.del(key)] *)
Definition del (key : string) (w : World) : World :=
  with_store (fun st => base.delete key st) w.

End Store.

(* ===================================================================== *)
(** * [class DisplayContext] *)
(* ===================================================================== *)

(** The two generations of the class: [displaycontext.js], and the
    TypeScript class that [DisplayContextFactory] imports.  They differ,
    in what is modelled here, in [show] only. *)
Inductive Source := JavaScript | TypeScript.

(** JavaScript values: what the methods below resolve with, and strings. *)
Inductive Value :=
| VUndefined
| VBool (b : bool)
| VString (s : string)
| VResults (m : list display_rpc_result)
| VWindows (map : JsMap.t DisplayWindowOptions).

Record DisplayContext := {
  name : string;
  displayWindows : JsMap.t DisplayWindow;
  viewObjects : JsMap.t ViewObject;
  window_settings : option (list (string * WindowSettings));
  displayWorkerQuitHandler : option string
}.

(** A [DisplayContext] instance together with the [io] it holds. *)
Record Obj := {
  this : DisplayContext;
  io : World
}.

(** A call on [this.io] from a method of the object. *)
Definition liftIO {A} (p : M World A) : M Obj A :=
  fun s => let (o, w) := p (io s) in (o, {| this := this s; io := w |}).

(** Assignments to the fields of the object. *)
Definition set_displayWindows (m : JsMap.t DisplayWindow) (c : DisplayContext) : DisplayContext :=
  {| name := name c; displayWindows := m; viewObjects := viewObjects c;
     window_settings := window_settings c;
     displayWorkerQuitHandler := displayWorkerQuitHandler c |}.

Definition set_viewObjects (m : JsMap.t ViewObject) (c : DisplayContext) : DisplayContext :=
  {| name := name c; displayWindows := displayWindows c; viewObjects := m;
     window_settings := window_settings c;
     displayWorkerQuitHandler := displayWorkerQuitHandler c |}.

Definition set_window_settings (ws : list (string * WindowSettings)) (c : DisplayContext) : DisplayContext :=
  {| name := name c; displayWindows := displayWindows c; viewObjects := viewObjects c;
     window_settings := Some ws;
     displayWorkerQuitHandler := displayWorkerQuitHandler c |}.

(** [onDisplayWorkerQuit(handler)] *)
Definition onDisplayWorkerQuit (handler : option string) (c : DisplayContext) : DisplayContext :=
  {| name := name c; displayWindows := displayWindows c; viewObjects := viewObjects c;
     window_settings := window_settings c;
     displayWorkerQuitHandler := handler |}.

(** The loop of the constructor over [Object.keys(window_settings)], on
    one entry: [windowName] is set to the key, and so is [displayName] when
    it is there already. *)
Definition ws_set_names (k : string) (o : WindowSettings) : WindowSettings :=
  {| ws_displayName := if JsString.truthy (ws_displayName o) then Some k else ws_displayName o;
     ws_windowName := Some k;
     ws_template := ws_template o;
     ws_displayContext := ws_displayContext o;
     ws_x := ws_x o; ws_y := ws_y o; ws_width := ws_width o; ws_height := ws_height o |}.

(** [_.isEmpty(obj)] on an object given by its properties. *)
Definition isEmpty {A} (obj : list A) : bool :=
  match obj with
  | [] => true
  | _ :: _ => false
  end.

(** [new DisplayContext(name, window_settings, io)]: the fields.  The two
    subscriptions the constructor makes are [on_display_removed] and
    [onQueueDeleted] below. *)
Definition new_DisplayContext (name_ : string) (settings : list (string * WindowSettings)) : DisplayContext :=
  {| name := name_;
     displayWindows := JsMap.clear;
     viewObjects := JsMap.clear;
     window_settings :=
       if negb (isEmpty settings)
       then Some (List.map (fun e => (fst e, ws_set_names (fst e) (snd e))) settings)
       else None;
     displayWorkerQuitHandler := None |}.

(** [_clean(closedDisplay)] *)
Definition _clean (closedDisplay : string) (s : Obj) : Obj :=
  let closedWindows :=
    JsMap.keys_where (fun v => String.eqb (dw_displayName v) closedDisplay)
                     (displayWindows (this s)) in
  let c1 := set_displayWindows (JsMap.delete_all closedWindows (displayWindows (this s))) (this s) in
  let vboToRemove :=
    JsMap.keys_where (fun v => String.eqb (vo_displayName v) closedDisplay)
                     (viewObjects c1) in
  let c2 := set_viewObjects (JsMap.delete_all vboToRemove (viewObjects c1)) c1 in
  match displayWorkerQuitHandler c2 with
  | Some handler =>
      let obj := {| closedDisplay := closedDisplay;
                    closedWindows := closedWindows;
                    closedViewObjects := vboToRemove |} in
      {| this := c2; io := emit (QuitHandlerCalled handler obj) (io s) |}
  | None => {| this := c2; io := io s |}
  end.

(** The handler subscribed to the topic ['display.removed']; [m] is the
    message body as a string. *)
Definition on_display_removed (m : string) (s : Obj) : Obj :=
  _clean m s.

(** The handler given to [onQueueDeleted]. *)
Definition onQueueDeleted (queue_name : string) (s : Obj) : Obj :=
  if JsString.includes "rpc-display-" queue_name
  then _clean (JsString.replace "rpc-display-" "" queue_name) s
  else s.

(** The queues [_executeInAvailableDisplays] keeps from the listing. *)
Definition availableDisplayNames (qs : list Queue) : list string :=
  List.map q_name
    (List.filter
       (fun queue =>
          (String.eqb (q_state queue) "running" || String.eqb (q_state queue) "live")
          && JsString.includes "rpc-display-" (q_name queue))
       qs).

(** [_executeInAvailableDisplays(cmd)] *)
Definition _executeInAvailableDisplays (cmd : Command) : M World (list (Reply cmd)) :=
  fun w =>
    let _ps := List.map (fun dm => Mq.call dm cmd) (availableDisplayNames (queues w)) in
    if Nat.ltb 0 (List.length _ps)
    then Promise_all _ps w
    else (Rejected (NoDisplayWorkerFound cmd), w).

(** [_postRequest(displayName, data)] *)
Definition _postRequest (displayName : option string) (data : Command) : M World (Reply data) :=
  Mq.call ("rpc-display-" +:+ JsString.of_optional displayName) data.

(** [show()].  The JavaScript class resolves with the workers' replies;
    the TypeScript one does not return the inner promise and resolves with
    [undefined]. *)
Definition show (src : Source) : M Obj Value :=
  fun s =>
    match liftIO (_executeInAvailableDisplays (set_display_context (name (this s)))) s with
    | (Resolved m, s1) =>
        (Resolved match src with JavaScript => VResults m | TypeScript => VUndefined end,
         {| this := this s1;
            io := Store.setState Store.activeDisplayContext (name (this s1)) (io s1) |})
    | (Rejected e, s1) => (Rejected e, s1)
    | (Pending, s1) => (Pending, s1)
    end.

(** [hide()] *)
Definition hide : M Obj (list display_rpc_result) :=
  fun s => liftIO (_executeInAvailableDisplays (hide_display_context (name (this s)))) s.

(** [ViewObject.reload()] *)
Definition ViewObject_reload (v : ViewObject) : M World display_rpc_result :=
  Mq.call ("rpc-display-" +:+ vo_displayName v) (reload (view_id v)).

(** [reloadAll()] *)
Definition reloadAll : M Obj Value :=
  fun s =>
    (m <- liftIO (Promise_all (List.map ViewObject_reload (JsMap.values (viewObjects (this s))))) ;;
     ret (VResults m)) s.

(** The loop of [getWindowBounds] that merges the workers' replies into
    one [boundMap]. *)
Definition merge_bounds (bounds : list (list (string * WindowSettings))) : list (string * WindowSettings) :=
  List.fold_left
    (fun boundMap b => List.fold_left (fun bm e => JsMap.set (fst e) (snd e) bm) b boundMap)
    bounds [].

(** [getWindowBounds()] *)
Definition getWindowBounds : M Obj (list (string * WindowSettings)) :=
  fun s =>
    let derive :=
      bounds <- liftIO (_executeInAvailableDisplays (get_window_bounds (name (this s)))) ;;
      let boundMap := merge_bounds bounds in
      fun s1 => (Resolved boundMap, {| this := set_window_settings boundMap (this s1); io := io s1 |}) in
    match window_settings (this s) with
    | Some ws => if negb (isEmpty ws) then (Resolved ws, s) else derive s
    | None => derive s
    end.

(** [options[k].template = 'index.html'] *)
Definition ws_set_template (o : WindowSettings) : WindowSettings :=
  {| ws_displayName := ws_displayName o;
     ws_windowName := ws_windowName o;
     ws_template := Some "index.html";
     ws_displayContext := ws_displayContext o;
     ws_x := ws_x o; ws_y := ws_y o; ws_width := ws_width o; ws_height := ws_height o |}.

(** [initialize(options)].  At every call in the class [options] is the
    object held in [this.window_settings], so the [template] written into
    its entries is written there. *)
Definition initialize (src : Source) (options : list (string * WindowSettings)) : M Obj Value :=
  fun s =>
    if isEmpty options
    then (Rejected CannotInitialize, s)
    else
      (_ <- show src ;;
       fun s1 =>
         let options' := List.map (fun e => (fst e, ws_set_template (snd e))) options in
         let _ps :=
           List.map
             (fun e => (_postRequest (ws_displayName (snd e)) (create_window (snd e))
                        : M World DisplayWindowOptions))
             options' in
         (m <- liftIO (Promise_all _ps) ;;
          fun s2 =>
            let map :=
              List.fold_left (fun acc res => JsMap.set (dwo_windowName res) res acc) m [] in
            let dws :=
              List.fold_left
                (fun acc res => JsMap.set (dwo_windowName res) (new_DisplayWindow res) acc)
                m (displayWindows (this s2)) in
            (Resolved (VWindows map),
             {| this := set_displayWindows dws (this s2); io := io s2 |}))
           {| this := set_window_settings options' (this s1); io := io s1 |}) s.

(** The running state of the loop over [states] in
    [restoreFromDisplayWorkerStates]. *)
Record Gathered := {
  windowCount : nat;
  g_displayWindows : JsMap.t DisplayWindow;
  g_viewObjects : JsMap.t ViewObject
}.

(** [for (let k of Object.keys(state.windows)) ...] *)
Definition gather_windows (ws : list (string * DisplayWindowOptions)) (g : Gathered) : Gathered :=
  List.fold_left
    (fun g e =>
       {| windowCount := S (windowCount g);
          g_displayWindows := JsMap.set (fst e) (new_DisplayWindow (snd e)) (g_displayWindows g);
          g_viewObjects := g_viewObjects g |})
    ws g.

(** [for (let k of Object.keys(state.viewObjects)) ...] *)
Definition gather_viewObjects (name_ : string) (vos : list (string * string)) (g : Gathered) : Gathered :=
  List.fold_left
    (fun g e =>
       match JsMap.get (snd e) (g_displayWindows g) with
       | Some wn =>
           let opts := {| view_id := fst e;
                          vo_displayName := dw_displayName wn;
                          vo_displayContext := Some name_;
                          vo_windowName := dw_windowName wn |} in
           {| windowCount := windowCount g;
              g_displayWindows := g_displayWindows g;
              g_viewObjects := JsMap.set (fst e) opts (g_viewObjects g) |}
       | None => g
       end)
    vos g.

(** The body of [states.forEach(state => ...)]. *)
Definition gather_state (name_ : string) (g : Gathered) (state : WorkerState) : Gathered :=
  let g1 := match st_windows state with
            | Some ws => gather_windows ws g
            | None => g
            end in
  match st_viewObjects state with
  | Some vos => gather_viewObjects name_ vos g1
  | None => g1
  end.

Definition gather (name_ : string) (states : list WorkerState) : Gathered :=
  List.fold_left (gather_state name_) states
    {| windowCount := 0; g_displayWindows := JsMap.clear; g_viewObjects := JsMap.clear |}.

(** [restoreFromDisplayWorkerStates(reset)] *)
Definition restoreFromDisplayWorkerStates (src : Source) (reset : bool) : M Obj Value :=
  fun s =>
    (states <- liftIO (_executeInAvailableDisplays (get_dw_context_windows_vbo (name (this s)))) ;;
     fun s1 =>
       let g := gather (name (this s1)) states in
       let s2 := {| this := set_viewObjects (g_viewObjects g)
                              (set_displayWindows (g_displayWindows g) (this s1));
                    io := io s1 |} in
       if Nat.eqb (windowCount g) 0
       then (bounds <- getWindowBounds ;; initialize src bounds) s2
       else if reset
       then (_ <- show src ;; m <- reloadAll ;; ret m) s2
       else show src s2) s.

(** The loop of [close] over the replies: [isHidden] and [map]. *)
Definition close_scan (m : list display_rpc_result) : bool * list display_rpc_result :=
  List.fold_left
    (fun acc res =>
       (if String.eqb (res_command res) "hide-display-context" then true else fst acc,
        snd acc ++ [res]))
    m (false, []).

(** [close()].  The store is read and, when it names this context,
    cleared by a promise chain that [close] starts and does not await;
    the topic is published before that chain runs. *)
Definition close : M Obj (list display_rpc_result) :=
  fun s =>
    (m <- liftIO (_executeInAvailableDisplays (close_display_context (name (this s)))) ;;
     fun s1 =>
       let isHidden := fst (close_scan m) in
       let map := snd (close_scan m) in
       if negb isHidden
       then
         let c := set_viewObjects JsMap.clear (set_displayWindows JsMap.clear (this s1)) in
         let w1 := Mq.publishTopic "display.displayContext.closed" (displayContextClosed map) (io s1) in
         let w2 := match Store.getState Store.activeDisplayContext w1 with
                   | Some x => if String.eqb x (name c)
                               then Store.del Store.activeDisplayContext w1
                               else w1
                   | None => w1
                   end in
         (Resolved map, {| this := c; io := w2 |})
       else (Resolved map, s1)) s.

(** [DisplayWindow.createViewObject(options)] ([displaywindow.js]); the
    reply is what [new ViewObject(io, m)] is built from. *)
Definition DisplayWindow_createViewObject (w : DisplayWindow) (options : viewobject_options)
  : M World ViewObject :=
  let options' := {| voo_url := voo_url options;
                     voo_displayContext := dw_displayContext w;
                     voo_windowName := Some (dw_windowName w);
                     voo_displayName := Some (dw_displayName w) |} in
  Mq.call ("rpc-display-" +:+ dw_displayName w) (create_viewobj options').

(** The body of the loop of [createViewObject] over [Object.keys(bounds)],
    on the entry under [k]. *)
Definition ws_fill (name_ k : string) (o : WindowSettings) : WindowSettings :=
  {| ws_displayName := match ws_displayName o with
                       | None => Some k
                       | Some d => Some d
                       end;
     ws_windowName := Some k;
     ws_template := Some "index.html";
     ws_displayContext := Some name_;
     ws_x := ws_x o; ws_y := ws_y o; ws_width := ws_width o; ws_height := ws_height o |}.

(** The loop of [createViewObject] over [Object.keys(bounds)]:
    [windowNameCheck] and the entries as it leaves them. *)
Definition check_bounds (name_ windowName : string) (bounds : list (string * WindowSettings))
  : bool * list (string * WindowSettings) :=
  List.fold_left
    (fun acc e =>
       (if String.eqb windowName (fst e) then true else fst acc,
        snd acc ++ [(fst e, ws_fill name_ (fst e) (snd e))]))
    bounds (false, []).

(** [p.then(k)] for a method whose recursion is cut by [fuel]: [None] is
    fuel run out. *)
Definition then_ {S A B} (p : outcome A * S) (k : A -> S -> option (outcome B * S))
  : option (outcome B * S) :=
  match p with
  | (Resolved a, s) => k a s
  | (Rejected e, s) => Some (Rejected e, s)
  | (Pending, s) => Some (Pending, s)
  end.

(** [createViewObject(options, windowName)] ([displaycontext.js]).

    In the [else] branch the executor of [new Promise] calls
    [this.initialize(bounds)] without awaiting it, and calls [reject] when
    the name was not found; it never calls [resolve].  So that promise is
    rejected or stays pending, and the [then] that follows it, the call of
    [createViewObject] again, runs only if it resolves.  [bounds] is the
    object held in [this.window_settings]: what the loop writes into its
    entries is written there. *)
Fixpoint createViewObject (fuel : nat) (options : viewobject_options) (windowName : string)
  (s : Obj) : option (outcome ViewObject * Obj) :=
  match fuel with
  | 0 => None
  | S fuel' =>
      let options := {| voo_url := voo_url options;
                        voo_displayContext := Some (name (this s));
                        voo_windowName := voo_windowName options;
                        voo_displayName := voo_displayName options |} in
      match JsMap.get windowName (displayWindows (this s)) with
      | Some w =>
          (* this.displayWindows.has(windowName) *)
          Some ((vo <- liftIO (DisplayWindow_createViewObject w options) ;;
                 fun s1 =>
                   (Resolved vo,
                    {| this := set_viewObjects (JsMap.set (view_id vo) vo (viewObjects (this s1)))
                                 (this s1);
                       io := io s1 |})) s)
      | None =>
        then_
          ((bounds <- getWindowBounds ;;
            fun s1 =>
              let windowNameCheck := fst (check_bounds (name (this s1)) windowName bounds) in
              let bounds' := snd (check_bounds (name (this s1)) windowName bounds) in
              let s2 := {| this := set_window_settings bounds' (this s1); io := io s1 |} in
              if windowNameCheck
              then (Pending, snd (initialize JavaScript bounds' s2))
              else (Rejected (WindowNameNotDefined windowName), s2)) s)
          (fun (m : Value) s3 => createViewObject fuel' options windowName s3)
      end
  end.

(* ===================================================================== *)
(** * [class DisplayContextFactory] (TypeScript) *)
(* ===================================================================== *)

Module DisplayContextFactory.

(** Runs a method of a [DisplayContext] object and keeps the [io]. *)
Definition on_ {A B} (c : DisplayContext) (p : M Obj A) (k : A -> DisplayContext -> B)
  : M World B :=
  fun w =>
    match p {| this := c; io := w |} with
    | (Resolved a, s) => (Resolved (k a (this s)), io s)
    | (Rejected e, s) => (Rejected e, io s)
    | (Pending, s) => (Pending, io s)
    end.

(** [getDisplays()] *)
Definition getDisplays : M World (JsMap.t (Z * Z * Z * Z)) :=
  fun w =>
    let _ps :=
      List.map (fun dm => (Mq.call dm get_display_bounds : M World DisplayBounds))
               (availableDisplayNames (queues w)) in
    (bounds <- Promise_all _ps ;;
     ret (List.fold_left
            (fun boundMap bound => JsMap.set (db_displayName bound) (db_bounds bound) boundMap)
            bounds JsMap.clear)) w.

(** [getActive()] *)
Definition getActive : M World DisplayContext :=
  fun w =>
    match Store.getState Store.activeDisplayContext w with
    | Some m =>
        if JsString.truthy (Some m)
        then
          let _dc := new_DisplayContext m [] in
          on_ _dc (restoreFromDisplayWorkerStates TypeScript false) (fun _ dc => dc) w
        else (Rejected NoDisplayContextActive, w)
    | None => (Rejected NoDisplayContextActive, w)
    end.

(** [setActive(display_ctx_name, reset)] *)
Definition setActive (display_ctx_name : string) (reset : bool) : M World Value :=
  fun w =>
    let (name_, w1) := Store.getset Store.activeDisplayContext display_ctx_name w in
    if negb (bool_decide (name_ = Some display_ctx_name))
    then
      (m <- on_ (new_DisplayContext display_ctx_name [])
                (restoreFromDisplayWorkerStates TypeScript reset) (fun m _ => m) ;;
       fun w2 =>
         (Resolved m,
          Mq.publishTopic "display.displayContext.changed"
            (displayContextChanged display_ctx_name name_) w2)) w1
    else (Resolved (VBool false), w1).


(** [hideAll()] *)
Definition hideAll : M World (list display_rpc_result) :=
  m <- (m <- getDisplays ;;
        Promise_all
          (List.map
             (fun k => (Mq.call ("rpc-display-" +:+ k) hide_all_windows
                        : M World display_rpc_result))
             (JsMap.keys m))) ;;
  fun w => (Resolved m, Store.del Store.activeDisplayContext w).

End DisplayContextFactory.

(* ===================================================================== *)
(** * [class DisplayContext]: lookups and subscriptions *)
(* ===================================================================== *)

(** [getDisplayWindowSync(windowName)] *)
Definition getDisplayWindowSync (windowName : string) (c : DisplayContext) : option DisplayWindow :=
  JsMap.get windowName (displayWindows c).

(** [getDisplayWindowNamesSync()] *)
Definition getDisplayWindowNamesSync (c : DisplayContext) : list string :=
  JsMap.keys (displayWindows c).

(** [getViewObjectByIdSync(id)] *)
Definition getViewObjectByIdSync (id : string) (c : DisplayContext) : option ViewObject :=
  JsMap.get id (viewObjects c).

(** What a subscriber reads in a published document [m]:
    [m.details.displayContext], [m.details.lastDisplayContext] and
    [m.details.closedDisplayContext]; [None] is [undefined] or [null].  The
    [details] of a [displayContextClosed] document are an array of
    replies, which has none of these properties. *)
Definition details_displayContext (m : Payload) : option string :=
  match m with
  | displayContextChanged displayContext _ => Some displayContext
  | displayContextCreated displayContext => Some displayContext
  | displayContextClosed _ => None
  end.

Definition details_lastDisplayContext (m : Payload) : option string :=
  match m with
  | displayContextChanged _ lastDisplayContext => lastDisplayContext
  | displayContextCreated _ => None
  | displayContextClosed _ => None
  end.

Definition details_closedDisplayContext (m : Payload) : option string :=
  match m with
  | displayContextChanged _ _ => None
  | displayContextCreated _ => None
  | displayContextClosed _ => None
  end.

(** A subscription made with [io.mq.onTopic(topic, callback)], where the
    callback calls the handler when [field(m) === this.name]: whether the
    handler is called for the event [e]. *)
Definition subscription (topic : string) (field : Payload -> option string)
  (c : DisplayContext) (e : Event) : bool :=
  match e with
  | Topic t m => String.eqb t topic && bool_decide (field m = Some (name c))
  | _ => false
  end.

(** [onClosed(handler)], with a handler that is not [null]. *)
Definition onClosed : DisplayContext -> Event -> bool :=
  subscription "display.displayContext.closed" details_closedDisplayContext.

(** [onActivated(handler)], with a handler that is not [null]. *)
Definition onActivated : DisplayContext -> Event -> bool :=
  subscription "display.displayContext.changed" details_displayContext.

(** [onDeactivated(handler)], with a handler that is not [null]. *)
Definition onDeactivated : DisplayContext -> Event -> bool :=
  subscription "display.displayContext.changed" details_lastDisplayContext.

(* ===================================================================== *)
(** * [class DisplayContextFactory]: the list of contexts *)
(* ===================================================================== *)

(** [[...new Set(contextList)]]: each value once, where it first
    stands. *)
Fixpoint Set_spread (seen : list string) (l : list string) : list string :=
  match l with
  | [] => []
  | x :: l' =>
      if existsb (String.eqb x) seen
      then Set_spread seen l'
      else x :: Set_spread (x :: seen) l'
  end.

(** The last [then] of [list()]: [lists] are the replies of the workers
    to [get-context-list], concatenated and then freed of repetitions. *)
Definition list_then (lists : list (list string)) : list string :=
  let contextList := List.fold_left (fun contextList l => contextList ++ l) lists [] in
  Set_spread [] contextList.

(* ===================================================================== *)
(** * Vocabulary of the statements *)
(* ===================================================================== *)

(** The world after the events [es] have been sent. *)
Definition emits (es : list Event) (w : World) : World :=
  {| queues := queues w; workers := workers w; store := store w; trace := trace w ++ es |}.

(** The requests a fan-out of [cmd] sends. *)
Definition sent (cmd : Command) (w : World) : list Event :=
  List.map (fun dm => Rpc dm cmd) (availableDisplayNames (queues w)).

(** Worlds to run the methods in. *)
Module Fixture.

Definition window (windowName displayName : string) : DisplayWindowOptions :=
  {| dwo_windowName := windowName; dwo_displayName := displayName;
     dwo_displayContext := None;
     dwo_x := 0; dwo_y := 0; dwo_width := 800; dwo_height := 600 |}.

Definition result (command displayName : string) : display_rpc_result :=
  {| res_command := command; res_status := "success"; res_displayName := displayName |}.

Definition settings (displayName : option string) : WindowSettings :=
  {| ws_displayName := displayName; ws_windowName := None; ws_template := None;
     ws_displayContext := None;
     ws_x := 0; ws_y := 0; ws_width := 800; ws_height := 600 |}.

(** A worker [d1] that answers every request; what it remembers of a
    context is [state], and [closing] is the command it reports when
    asked to close a context. *)
Definition worker (state : WorkerState) (closing : string)
  (queue : string) (cmd : Command) : option (Reply cmd) :=
  match cmd with
  | get_dw_context_windows_vbo _ => Some state
  | get_window_bounds _ => Some []
  | set_display_context _ => Some (result "set-display-context" "d1")
  | hide_display_context _ => Some (result "hide-display-context" "d1")
  | close_display_context _ => Some (result closing "d1")
  | create_window o => Some (window (JsString.of_optional (ws_windowName o)) "d1")
  | create_viewobj o =>
      Some {| view_id := "v1"; vo_displayName := "d1";
              vo_windowName := JsString.of_optional (voo_windowName o);
              vo_displayContext := voo_displayContext o |}
  | reload _ => Some (result "reload" "d1")
  | get_display_bounds => Some {| db_displayName := "d1"; db_bounds := (0, 0, 1920, 1080)%Z |}
  | hide_all_windows => Some (result "hide-all-windows" "d1")
  end.

(** [d1] shows window [main] with pane [p1], and reports a pane [p2] in
    a window it does not report. *)
Definition remembers : WorkerState :=
  {| st_windows := Some [("main", window "main" "d1")];
     st_viewObjects := Some [("p1", "main"); ("p2", "gone")] |}.

(** [d1] knows nothing of the context. *)
Definition forgot : WorkerState :=
  {| st_windows := None; st_viewObjects := None |}.

(** [d1] reports, under the key [main], a window that calls itself
    [other]. *)
Definition misnamed : WorkerState :=
  {| st_windows := Some [("main", window "other" "d1")];
     st_viewObjects := Some [("p1", "main")] |}.

Definition d1 : Queue := {| q_name := "rpc-display-d1"; q_state := "running" |}.

Definition main : Queue := {| q_name := "rpc-display-main"; q_state := "live" |}.

Definition world (qs : list Queue) (state : WorkerState) (closing : string)
  (active : option string) : World :=
  {| queues := qs;
     workers := worker state closing;
     store := match active with
              | Some a => {[ Store.activeDisplayContext := a ]}
              | None => ∅
              end;
     trace := [] |}.

(** No display worker is running. *)
Definition nobody : World := world [] forgot "close-display-context" None.

(** [d1] is running and context [B] is active. *)
Definition w0 : World := world [d1] remembers "close-display-context" (Some "B").

(** As [w0], with a worker that hides a context it is asked to close. *)
Definition hiding : World := world [d1] remembers "hide-display-context" (Some "B").

(** [d1] is running and reports its window under another name; no
    context is active. *)
Definition w_misnamed : World := world [d1] misnamed "close-display-context" None.

(** Display [main] is running and remembers nothing. *)
Definition w_main : World := world [main] forgot "close-display-context" None.

(** A context declared with one window [main] on display [main], whose
    window map is empty. *)
Definition alpha : DisplayContext :=
  new_DisplayContext "alpha" [("main", settings (Some "main"))].

Definition page : viewobject_options :=
  {| voo_url := "https://example.com"; voo_displayContext := None;
     voo_windowName := None; voo_displayName := None |}.

(** A context [B] as reconciliation from [w0] leaves it, with a quit
    handler registered. *)
Definition B : DisplayContext :=
  {| name := "B";
     displayWindows := [("main", new_DisplayWindow (window "main" "d1"))];
     viewObjects := [("p1", {| view_id := "p1"; vo_displayName := "d1";
                               vo_windowName := "main"; vo_displayContext := Some "B" |})];
     window_settings := None;
     displayWorkerQuitHandler := Some "onQuit" |}.

End Fixture.

(** A reply to [close-display-context] that says the context was hidden
    instead. *)
Definition hidden (res : display_rpc_result) : bool :=
  String.eqb (res_command res) "hide-display-context".

(** The requests [reloadAll] sends: one [reload] per pane, to the display
    of the pane, in the order of the pane map. *)
Definition reloads (c : DisplayContext) : list Event :=
  List.map (fun v => Rpc ("rpc-display-" +:+ vo_displayName v) (reload (view_id v)))
           (JsMap.values (viewObjects c)).

(** The number of window entries in the replies to
    [get-dw-context-windows-vbo], over all workers. *)
Definition total_windows (states : list WorkerState) : nat :=
  list_sum
    (List.map
       (fun state => match st_windows state with
                     | Some ws => List.length ws
                     | None => 0
                     end)
       states).


(** The object and the world in which reconciliation takes its branch:
    the maps rebuilt from [states], the world as the fan-out left it. *)
Definition gathered (s : Obj) (states : list WorkerState) (w1 : World) : Obj :=
  let g := gather (name (this s)) states in
  {| this := set_viewObjects (g_viewObjects g)
               (set_displayWindows (g_displayWindows g) (this s));
     io := w1 |}.

(** No pane dangles: the [windowName] of every pane is a key of the window
    map. *)
Definition no_dangling (c : DisplayContext) : Prop :=
  forall k vo, In (k, vo) (viewObjects c) ->
               JsMap.has (vo_windowName vo) (displayWindows c) = true.

(** A worker's state in which every window is reported under its own
    name. *)
Definition keyed_by_name (state : WorkerState) : Prop :=
  forall ws k opts,
    st_windows state = Some ws -> In (k, opts) ws -> dwo_windowName opts = k.

(** Pane [k] is reported by one of the workers as living in window [w]. *)
Definition reported_in (states : list WorkerState) (k w : string) : Prop :=
  exists state vos,
    In state states /\ st_viewObjects state = Some vos /\ In (k, w) vos.

(** What the loop over the replies maintains when the replies are keyed
    by name: a window stands under its own name, and a pane names a window
    of the map. *)
Definition gathered_well (g : Gathered) : Prop :=
  (forall k wn, In (k, wn) (g_displayWindows g) -> dw_windowName wn = k) /\
  (forall k vo, In (k, vo) (g_viewObjects g) ->
                JsMap.has (vo_windowName vo) (g_displayWindows g) = true).

(** What the loop maintains whatever the replies: a pane of the map was
    reported, by a worker seen so far, in a window of the map. *)
Definition gathered_reported (seen : list WorkerState) (g : Gathered) : Prop :=
  forall k vo, In (k, vo) (g_viewObjects g) ->
               exists w, reported_in seen k w /\ JsMap.has w (g_displayWindows g) = true.

(** A request to a worker, other than one to create a pane. *)
Definition other_request (e : Event) : Prop :=
  match e with
  | Rpc _ (create_viewobj _) => False
  | Rpc _ _ => True
  | _ => False
  end.

(** Every pane stands in a window of the map that is on the pane's
    display. *)
Definition panes_on_windows (c : DisplayContext) : Prop :=
  forall k vo, In (k, vo) (viewObjects c) ->
    exists wn, JsMap.get (vo_windowName vo) (displayWindows c) = Some wn
               /\ dw_displayName wn = vo_displayName vo.

(** A world where three displays are listed and only the first answers. *)
Module Outage.

Definition worker (queue : string) (cmd : Command) : option (Reply cmd) :=
  if String.eqb queue "rpc-display-d1"
  then Fixture.worker Fixture.remembers "close-display-context" queue cmd
  else None.

Definition d2 : Queue := {| q_name := "rpc-display-d2"; q_state := "live" |}.

Definition d3 : Queue := {| q_name := "rpc-display-d3"; q_state := "running" |}.

Definition world : World :=
  {| queues := [Fixture.d1; d2; d3]; workers := worker; store := ∅; trace := [] |}.

End Outage.

(** The names under which the workers report windows, in the order the
    loop meets them. *)
Definition reported_window_names (states : list WorkerState) : list string :=
  List.concat
    (List.map
       (fun state => match st_windows state with
                     | Some ws => JsMap.keys ws
                     | None => []
                     end)
       states).

(** In [g], every window stands under its own name and every pane stands
    in a window of the map that is on the pane's display. *)
Definition gathered_on_windows (g : Gathered) : Prop :=
  (forall k wn, In (k, wn) (g_displayWindows g) -> dw_windowName wn = k) /\
  (forall k vo, In (k, vo) (g_viewObjects g) ->
     exists wn, JsMap.get (vo_windowName vo) (g_displayWindows g) = Some wn
                /\ dw_displayName wn = vo_displayName vo).









(* ===================================================================== *)
(** * Facts about [JsMap] *)
(* ===================================================================== *)

Module JsMapFacts.
Section Facts.
Context {V : Type}.
Implicit Types (m : JsMap.t V) (k : string) (v : V).

Local Abbreviation wf := (@JsMap.wf V).

Lemma wf_clear : wf (JsMap.clear : JsMap.t V).
Proof. constructor. Qed.

Lemma get_In m k v : JsMap.get k m = Some v -> In (k, v) m.
Proof.
  induction m as [|[k' v'] m IH]; simpl; [discriminate|].
  destruct (String.eqb_spec k k') as [->|Hne].
  - intros [= ->]. now left.
  - intros H. right. now apply IH.
Qed.

Lemma get_None m k : JsMap.get k m = None <-> ~ In k (JsMap.keys m).
Proof.
  induction m as [|[k' v'] m IH]; simpl.
  - tauto.
  - destruct (String.eqb_spec k k') as [->|Hne].
    + split; [discriminate | intros H; exfalso; apply H; now left].
    + rewrite IH. split; [intros H [E|I]; [congruence | tauto] | tauto].
Qed.

Lemma has_keys m k : JsMap.has k m = true <-> In k (JsMap.keys m).
Proof.
  unfold JsMap.has. destruct (JsMap.get k m) eqn:E.
  - split; [intros _ | reflexivity].
    apply get_In in E. change k with (fst (k, v)). now apply in_map.
  - apply get_None in E. split; [discriminate | tauto].
Qed.

Lemma In_get m k v : wf m -> In (k, v) m -> JsMap.get k m = Some v.
Proof.
  unfold wf. induction m as [|[k' v'] m IH]; simpl; [tauto|].
  intros Hnd [E|I].
  - injection E as -> ->. now rewrite String.eqb_refl.
  - inversion Hnd as [|? ? Hni Hnd']; subst.
    destruct (String.eqb_spec k k') as [->|Hne]; [|now apply IH].
    exfalso. apply Hni. change k' with (fst (k', v)). now apply in_map.
Qed.

Lemma get_set_eq m k v : JsMap.get k (JsMap.set k v m) = Some v.
Proof.
  induction m as [|[k' v'] m IH]; simpl.
  - now rewrite String.eqb_refl.
  - destruct (String.eqb_spec k k') as [->|Hne]; simpl.
    + now rewrite String.eqb_refl.
    + destruct (String.eqb_spec k k'); [congruence | exact IH].
Qed.

Lemma get_set_ne m k k' v : k <> k' -> JsMap.get k' (JsMap.set k v m) = JsMap.get k' m.
Proof.
  intros Hne. induction m as [|[k0 v0] m IH]; simpl.
  - destruct (String.eqb_spec k' k); congruence.
  - destruct (String.eqb_spec k k0) as [->|Hne0]; simpl.
    + destruct (String.eqb_spec k' k0); congruence.
    + now rewrite IH.
Qed.

Lemma keys_set m k v :
  JsMap.keys (JsMap.set k v m) =
  if JsMap.has k m then JsMap.keys m else JsMap.keys m ++ [k].
Proof.
  unfold JsMap.has. induction m as [|[k' v'] m IH]; simpl; [reflexivity|].
  destruct (String.eqb_spec k k') as [->|Hne]; simpl; [reflexivity|].
  rewrite IH. now destruct (JsMap.get k m).
Qed.

Lemma In_keys_set m k k' v :
  In k' (JsMap.keys (JsMap.set k v m)) <-> k' = k \/ In k' (JsMap.keys m).
Proof.
  rewrite keys_set. destruct (JsMap.has k m) eqn:E.
  - apply has_keys in E. split; [tauto | intros [->|H]; assumption].
  - rewrite in_app_iff. simpl. intuition congruence.
Qed.

Lemma wf_set m k v : wf m -> wf (JsMap.set k v m).
Proof.
  unfold wf. rewrite keys_set. destruct (JsMap.has k m) eqn:E; [tauto|].
  intros Hnd. apply List.NoDup_app; [assumption | |].
  - repeat constructor. simpl. tauto.
  - intros x Hx [<-|[]]. apply has_keys in Hx. congruence.
Qed.

Lemma wf_filter (p : string * V -> bool) m : wf m -> wf (List.filter p m).
Proof.
  unfold wf. induction m as [|e m IH]; simpl; [tauto|].
  intros Hnd. inversion Hnd as [|? ? Hni Hnd']; subst.
  destruct (p e); simpl; [|now apply IH].
  constructor; [|now apply IH].
  intros Hin. apply Hni. apply in_map_iff in Hin as [e' [Hfst Hin]].
  apply filter_In in Hin as [Hin _]. rewrite <- Hfst. now apply in_map.
Qed.

Lemma wf_delete m k : wf m -> wf (JsMap.delete k m).
Proof. apply wf_filter. Qed.

(** Deleting a list of keys one after the other keeps the entries whose
    key is not in the list. *)
Lemma delete_all_filter (ks : list string) m :
  JsMap.delete_all ks m =
  List.filter (fun e => negb (existsb (fun k => String.eqb k (fst e)) ks)) m.
Proof.
  unfold JsMap.delete_all. revert m.
  induction ks as [|k ks IH]; intros m; simpl.
  - induction m as [|e m IHm]; simpl; [reflexivity | now rewrite <- IHm].
  - rewrite IH. unfold JsMap.delete.
    induction m as [|e m IHm]; simpl; [reflexivity|].
    destruct (String.eqb k (fst e)); simpl.
    + exact IHm.
    + destruct (existsb _ ks); simpl; [exact IHm | now rewrite IHm].
Qed.

Lemma In_keys_where (p : V -> bool) m k :
  In k (JsMap.keys_where p m) <-> exists v, In (k, v) m /\ p v = true.
Proof.
  unfold JsMap.keys_where, JsMap.keys. rewrite in_map_iff. split.
  - intros [[k' v] [E Hin]]. simpl in E. subst k'.
    apply filter_In in Hin as [Hin Hp]. now exists v.
  - intros [v [Hin Hp]]. exists (k, v). split; [reflexivity|].
    apply filter_In. now split.
Qed.

(** [_clean]'s two-pass removal: collecting the keys whose value
    satisfies [p] and then deleting them leaves exactly the entries whose
    value does not satisfy [p]. *)
Lemma delete_all_keys_where (p : V -> bool) m :
  wf m ->
  JsMap.delete_all (JsMap.keys_where p m) m =
  List.filter (fun e => negb (p (snd e))) m.
Proof.
  intros Hwf. rewrite delete_all_filter. apply filter_ext_in.
  intros [k v] Hin. simpl. f_equal.
  destruct (p v) eqn:Hp.
  - apply existsb_exists. exists k. split; [|apply String.eqb_refl].
    apply In_keys_where. now exists v.
  - apply not_true_is_false. intros Hex.
    apply existsb_exists in Hex as [k' [Hk' E]].
    apply String.eqb_eq in E. subst k'.
    apply In_keys_where in Hk' as [v' [Hin' Hp']].
    apply (In_get _ _ _ Hwf) in Hin. apply (In_get _ _ _ Hwf) in Hin'.
    congruence.
Qed.

End Facts.
End JsMapFacts.

Lemma In_set {V} (m : JsMap.t V) k v k' v' :
  In (k', v') (JsMap.set k v m) -> (k' = k /\ v' = v) \/ In (k', v') m.
Proof.
  induction m as [|[k0 v0] m IH]; simpl.
  - intros [[= <- <-]|[]]. now left.
  - destruct (String.eqb k k0); simpl.
    + intros [[= <- <-]|H]; [now left | right; now right].
    + intros [E|H]; [right; now left|]. destruct (IH H); [now left | right; now right].
Qed.

Lemma has_set_mono {V} (m : JsMap.t V) k v k' :
  JsMap.has k' m = true -> JsMap.has k' (JsMap.set k v m) = true.
Proof.
  rewrite !JsMapFacts.has_keys, JsMapFacts.In_keys_set. tauto.
Qed.

Lemma fold_set_has_mono {A V} (key : A -> string) (val : A -> V) (l : list A) (m : JsMap.t V) k :
  JsMap.has k m = true ->
  JsMap.has k (List.fold_left (fun acc a => JsMap.set (key a) (val a) acc) l m) = true.
Proof.
  revert m. induction l as [|a l IH]; intros m H; simpl; [assumption|].
  apply IH. now apply has_set_mono.
Qed.

Lemma fold_set_wf {A V} (key : A -> string) (val : A -> V) (l : list A) (m : JsMap.t V) :
  JsMap.wf m ->
  JsMap.wf (List.fold_left (fun acc a => JsMap.set (key a) (val a) acc) l m).
Proof.
  revert m. induction l as [|a l IH]; intros m H; simpl; [assumption|].
  apply IH. now apply JsMapFacts.wf_set.
Qed.

(* ===================================================================== *)
(** * Facts about strings *)
(* ===================================================================== *)

Lemma substring_all (s : string) : String.substring 0 (String.length s) s = s.
Proof. induction s as [|c s IH]; simpl; [reflexivity | now rewrite IH]. Qed.

Lemma prefix_append (p d : string) : String.prefix p (p +:+ d) = true.
Proof.
  induction p as [|c p IH]; simpl; [now destruct d|].
  destruct (Ascii.ascii_dec c c); [exact IH | congruence].
Qed.

Lemma index_append (p d : string) : String.index 0 p (p +:+ d) = Some 0.
Proof.
  destruct p as [|c p].
  - simpl. now destruct d.
  - change (String c p +:+ d) with (String c (p +:+ d)).
    unfold String.index. fold String.index.
    change (String c (p +:+ d)) with (String c p +:+ d).
    now rewrite prefix_append.
Qed.

Lemma strip_prefix (p d : string) :
  String.substring (String.length p) (String.length (p +:+ d) - String.length p) (p +:+ d) = d.
Proof.
  induction p as [|c p IH]; simpl.
  - rewrite Nat.sub_0_r. apply substring_all.
  - exact IH.
Qed.

(** The queue of display [D] names [D]: stripping the prefix gives it
    back. *)
Lemma queue_name_of_display (D : string) :
  JsString.includes "rpc-display-" ("rpc-display-" +:+ D) = true
  /\ JsString.replace "rpc-display-" "" ("rpc-display-" +:+ D) = D.
Proof.
  unfold JsString.includes, JsString.replace. rewrite index_append.
  split; [reflexivity|].
  change (String.substring 0 0 ("rpc-display-" +:+ D)) with "".
  change ("" +:+ "" +:+ ?x) with x.
  apply (strip_prefix "rpc-display-" D).
Qed.

(* ===================================================================== *)
(** * Facts about the world and about promises *)
(* ===================================================================== *)

Lemma emits_nil w : emits [] w = w.
Proof. destruct w. unfold emits. simpl. now rewrite app_nil_r. Qed.

Lemma emits_app es1 es2 w : emits es2 (emits es1 w) = emits (es1 ++ es2) w.
Proof. unfold emits. simpl. now rewrite app_assoc. Qed.

Lemma with_store_id (f : gmap string string -> gmap string string) w :
  f (store w) = store w -> with_store f w = w.
Proof. destruct w. unfold with_store. simpl. now intros ->. Qed.

Lemma Promise_all_length {S A} (ps : list (M S A)) s rs s' :
  Promise_all ps s = (Resolved rs, s') -> List.length rs = List.length ps.
Proof.
  revert s rs s'. induction ps as [|p ps IH]; intros s rs s'; simpl.
  - now intros [= <- _].
  - destruct (p s) as [o s1]. destruct (Promise_all ps s1) as [os s2] eqn:E.
    intros [= H _]. destruct o, os; simpl in H; try discriminate.
    injection H as <-. simpl. f_equal. eapply IH, E.
Qed.

(** When every member of a [Promise.all] does nothing to the world but
    send one request, the requests are sent in order and nothing else
    happens, however the promise settles. *)
Lemma Promise_all_emits {A} (ps : list (M World A)) (es : list Event) :
  Forall2 (fun p e => forall w, snd (p w) = emits [e] w) ps es ->
  forall w, snd (Promise_all ps w) = emits es w.
Proof.
  induction 1 as [|p e ps es Hp _ IH]; intros w; simpl.
  - now rewrite emits_nil.
  - specialize (Hp w). destruct (p w) as [o s1]. simpl in Hp. subst s1.
    specialize (IH (emits [e] w)). destruct (Promise_all ps _) as [os s2].
    simpl in *. subst s2. now rewrite emits_app.
Qed.

Lemma Promise_all_calls_snd (cmd : Command) (qs : list string) w :
  snd (Promise_all (List.map (fun dm => Mq.call dm cmd) qs) w) =
  emits (List.map (fun dm => Rpc dm cmd) qs) w.
Proof.
  apply Promise_all_emits. induction qs; simpl; constructor; auto.
Qed.

Lemma Promise_all_map_emits {X A} (f : X -> M World A) (ev : X -> Event) (xs : list X) :
  (forall x w, snd (f x w) = emits [ev x] w) ->
  forall w, snd (Promise_all (List.map f xs) w) = emits (List.map ev xs) w.
Proof.
  intros Hf. apply Promise_all_emits.
  induction xs; simpl; constructor; auto.
Qed.

Lemma _executeInAvailableDisplays_snd cmd w :
  snd (_executeInAvailableDisplays cmd w) = emits (sent cmd w) w.
Proof.
  unfold _executeInAvailableDisplays, sent. rewrite length_map.
  destruct (availableDisplayNames (queues w)) as [|q qs] eqn:E; simpl Nat.ltb; cbv iota.
  - simpl. now rewrite emits_nil.
  - apply Promise_all_calls_snd.
Qed.

Lemma _executeInAvailableDisplays_resolved cmd w rs w' :
  _executeInAvailableDisplays cmd w = (Resolved rs, w') ->
  List.length rs = List.length (availableDisplayNames (queues w)) /\ rs <> [].
Proof.
  unfold _executeInAvailableDisplays. rewrite length_map.
  destruct (availableDisplayNames (queues w)) as [|q qs] eqn:E; simpl Nat.ltb; cbv iota.
  - discriminate.
  - intros H. apply Promise_all_length in H. rewrite length_map in H.
    split; [exact H|]. destruct rs; [discriminate | congruence].
Qed.

Lemma sent_other cmd w :
  match cmd with create_viewobj _ => False | _ => True end ->
  Forall other_request (sent cmd w).
Proof.
  intros H. unfold sent. apply List.Forall_map, List.Forall_forall. intros q _.
  now destruct cmd.
Qed.



(* ===================================================================== *)
(** * What each method does to the object and to the world *)
(* ===================================================================== *)

Lemma show_spec (src : Source) (s : Obj) :
  let cmd := set_display_context (name (this s)) in
  show src s =
  match fst (_executeInAvailableDisplays cmd (io s)) with
  | Resolved m =>
      (Resolved match src with JavaScript => VResults m | TypeScript => VUndefined end,
       {| this := this s;
          io := Store.setState Store.activeDisplayContext (name (this s))
                  (emits (sent cmd (io s)) (io s)) |})
  | Rejected e => (Rejected e, {| this := this s; io := emits (sent cmd (io s)) (io s) |})
  | Pending => (Pending, {| this := this s; io := emits (sent cmd (io s)) (io s) |})
  end.
Proof.
  intros cmd. unfold show, liftIO. fold cmd.
  pose proof (_executeInAvailableDisplays_snd cmd (io s)) as Hw.
  destruct (_executeInAvailableDisplays cmd (io s)) as [o w1]. simpl in *. subst w1.
  now destruct o.
Qed.

Lemma show_this src s : this (snd (show src s)) = this s.
Proof.
  rewrite show_spec. cbv zeta.
  now destruct (fst (_executeInAvailableDisplays _ (io s))).
Qed.

Lemma reloadAll_snd (s : Obj) :
  snd (reloadAll s) = {| this := this s; io := emits (reloads (this s)) (io s) |}.
Proof.
  unfold reloadAll, bind, liftIO, ret, reloads.
  set (ps := List.map ViewObject_reload _).
  assert (Hw : snd (Promise_all ps (io s))
               = emits (List.map (fun v => Rpc ("rpc-display-" +:+ vo_displayName v)
                                              (reload (view_id v)))
                          (JsMap.values (viewObjects (this s)))) (io s)).
  { apply Promise_all_emits. subst ps.
    induction (JsMap.values (viewObjects (this s))); simpl; constructor; auto. }
  destruct (Promise_all ps (io s)) as [o w1]. simpl in *. subst w1.
  now destruct o.
Qed.

Lemma show_then_reloadAll_this (src : Source) (s : Obj) o s' :
  (_ <- show src ;; m <- reloadAll ;; ret m) s = (o, s') -> this s' = this s.
Proof.
  unfold bind at 1. rewrite show_spec. cbv zeta.
  destruct (fst (_executeInAvailableDisplays _ (io s))); try (intros [= <- <-]; reflexivity).
  unfold bind, ret.
  set (s3 := {| this := this s; io := _ |}).
  pose proof (reloadAll_snd s3) as Hr.
  destruct (reloadAll s3) as [o1 s4]. simpl in Hr. subst s4.
  destruct o1; intros [= <- <-]; reflexivity.
Qed.

Lemma getWindowBounds_frame (s : Obj) :
  let s' := snd (getWindowBounds s) in
  name (this s') = name (this s) /\
  displayWindows (this s') = displayWindows (this s) /\
  viewObjects (this s') = viewObjects (this s) /\
  displayWorkerQuitHandler (this s') = displayWorkerQuitHandler (this s) /\
  store (io s') = store (io s).
Proof.
  assert (D : forall s0 : Obj,
             let s' := snd ((bounds <- liftIO (_executeInAvailableDisplays
                                                 (get_window_bounds (name (this s)))) ;;
                             fun s1 => (Resolved (merge_bounds bounds),
                                        {| this := set_window_settings (merge_bounds bounds) (this s1);
                                           io := io s1 |})) s0) in
             name (this s') = name (this s0) /\
             displayWindows (this s') = displayWindows (this s0) /\
             viewObjects (this s') = viewObjects (this s0) /\
             displayWorkerQuitHandler (this s') = displayWorkerQuitHandler (this s0) /\
             store (io s') = store (io s0)).
  { intros s0. unfold bind, liftIO.
    pose proof (_executeInAvailableDisplays_snd (get_window_bounds (name (this s))) (io s0)) as Hw.
    destruct (_executeInAvailableDisplays _ (io s0)) as [o w1]. simpl in Hw. subst w1.
    destruct o; simpl; auto. }
  unfold getWindowBounds.
  destruct (window_settings (this s)) as [ws|]; [destruct ws as [|e ws]|]; simpl negb; cbv iota;
    try apply D.
  simpl. auto.
Qed.

Lemma getWindowBounds_trace (s : Obj) :
  exists es, trace (io (snd (getWindowBounds s))) = trace (io s) ++ es
             /\ Forall other_request es.
Proof.
  assert (D : forall s0 : Obj,
             exists es,
               trace (io (snd ((bounds <- liftIO (_executeInAvailableDisplays
                                                 (get_window_bounds (name (this s)))) ;;
                             fun s1 => (Resolved (merge_bounds bounds),
                                        {| this := set_window_settings (merge_bounds bounds) (this s1);
                                           io := io s1 |})) s0)))
               = trace (io s0) ++ es /\ Forall other_request es).
  { intros s0. unfold bind, liftIO.
    pose proof (_executeInAvailableDisplays_snd (get_window_bounds (name (this s))) (io s0)) as Hw.
    destruct (_executeInAvailableDisplays _ (io s0)) as [o w1]. simpl in Hw. subst w1.
    exists (sent (get_window_bounds (name (this s))) (io s0)).
    split; [now destruct o|].
    unfold sent. apply List.Forall_map, List.Forall_forall. intros; exact I. }
  unfold getWindowBounds.
  destruct (window_settings (this s)) as [ws|]; [destruct ws as [|e ws]|]; simpl negb; cbv iota;
    try apply D.
  exists []. simpl. now rewrite app_nil_r.
Qed.

Lemma initialize_frame (src : Source) (options : list (string * WindowSettings)) (s : Obj) o s' :
  initialize src options s = (o, s') ->
  name (this s') = name (this s) /\
  viewObjects (this s') = viewObjects (this s) /\
  displayWorkerQuitHandler (this s') = displayWorkerQuitHandler (this s).
Proof.
  unfold initialize. destruct (isEmpty options); [intros [= <- <-]; auto|].
  cbv zeta. unfold bind at 1.
  rewrite show_spec. cbv zeta.
  destruct (fst (_executeInAvailableDisplays _ (io s))); try (intros [= <- <-]; now auto).
  unfold bind, liftIO. cbn [this io].
  destruct (Promise_all _ _) as [o1 w1]. destruct o1; intros [= <- <-]; cbn; auto.
Qed.

Lemma initialize_windows (src : Source) (options : list (string * WindowSettings)) (s : Obj) o s' :
  initialize src options s = (o, s') ->
  forall k, JsMap.has k (displayWindows (this s)) = true ->
            JsMap.has k (displayWindows (this s')) = true.
Proof.
  unfold initialize. destruct (isEmpty options); [intros [= <- <-]; auto|].
  cbv zeta. unfold bind at 1.
  rewrite show_spec. cbv zeta.
  destruct (fst (_executeInAvailableDisplays _ (io s))); try (intros [= <- <-]; now auto).
  unfold bind, liftIO. cbn [this io].
  destruct (Promise_all _ _) as [o1 w1]. destruct o1; intros [= <- <-]; cbn; auto.
  intros k H.
  apply (fold_set_has_mono dwo_windowName new_DisplayWindow). exact H.
Qed.

Lemma initialize_trace (src : Source) (options : list (string * WindowSettings)) (s : Obj) :
  exists es, trace (io (snd (initialize src options s))) = trace (io s) ++ es
             /\ Forall other_request es.
Proof.
  unfold initialize. destruct (isEmpty options).
  { exists []. simpl. now rewrite app_nil_r. }
  cbv zeta. unfold bind at 1. rewrite show_spec. cbv zeta.
  set (shown := sent (set_display_context (name (this s))) (io s)).
  assert (Hs : Forall other_request shown).
  { unfold shown, sent. apply List.Forall_map, List.Forall_forall. intros; exact I. }
  destruct (fst (_executeInAvailableDisplays _ (io s))); try (exists shown; now split).
  unfold bind, liftIO. cbn [this io].
  set (opts := List.map (fun e => (fst e, ws_set_template (snd e))) options).
  set (w2 := Store.setState _ _ _).
  pose proof (Promise_all_map_emits
                (fun e : string * WindowSettings =>
                   (_postRequest (ws_displayName (snd e)) (create_window (snd e))
                    : M World DisplayWindowOptions))
                (fun e => Rpc ("rpc-display-" +:+ JsString.of_optional (ws_displayName (snd e)))
                              (create_window (snd e)))
                opts (fun x w => eq_refl) w2) as Hp.
  destruct (Promise_all _ w2) as [o1 w3]. simpl in Hp. subst w3.
  eexists (shown ++ _). split.
  - destruct o1; simpl; now rewrite app_assoc.
  - apply Forall_app. split; [exact Hs|].
    apply List.Forall_map, List.Forall_forall. intros; exact I.
Qed.

Lemma initialize_store (src : Source) (options : list (string * WindowSettings)) (s : Obj) o s' :
  initialize src options s = (o, s') ->
  store (io s') = store (io s)
  \/ store (io s') = <[Store.activeDisplayContext := name (this s)]> (store (io s)).
Proof.
  unfold initialize. destruct (isEmpty options); [intros [= <- <-]; now left|].
  cbv zeta. unfold bind at 1. rewrite show_spec. cbv zeta.
  destruct (fst (_executeInAvailableDisplays _ (io s))); try (intros [= <- <-]; now left).
  unfold bind, liftIO. cbn [this io].
  set (opts := List.map (fun e => (fst e, ws_set_template (snd e))) options).
  set (w2 := Store.setState _ _ _).
  pose proof (Promise_all_map_emits
                (fun e : string * WindowSettings =>
                   (_postRequest (ws_displayName (snd e)) (create_window (snd e))
                    : M World DisplayWindowOptions))
                (fun e => Rpc ("rpc-display-" +:+ JsString.of_optional (ws_displayName (snd e)))
                              (create_window (snd e)))
                opts (fun x w => eq_refl) w2) as Hp.
  destruct (Promise_all _ w2) as [o1 w3]. simpl in Hp. subst w3.
  destruct o1; intros [= <- <-]; right; reflexivity.
Qed.

(** When [initialize] resolves: the context was shown, then one
    [create-window] request was sent for every declared window, to the
    display the window names, and the windows the workers answered with
    were put in the window map under their names. *)
Lemma initialize_resolved (src : Source) (options : list (string * WindowSettings)) (s : Obj)
  (v : Value) (s' : Obj) :
  initialize src options s = (Resolved v, s') ->
  exists m : list DisplayWindowOptions,
    List.length m = List.length options
    /\ v = VWindows (List.fold_left (fun acc res => JsMap.set (dwo_windowName res) res acc) m [])
    /\ displayWindows (this s') =
         List.fold_left
           (fun acc res => JsMap.set (dwo_windowName res) (new_DisplayWindow res) acc)
           m (displayWindows (this s))
    /\ trace (io s') =
         trace (io s) ++ sent (set_display_context (name (this s))) (io s)
         ++ List.map
              (fun e => Rpc ("rpc-display-" +:+ JsString.of_optional (ws_displayName (snd e)))
                            (create_window (ws_set_template (snd e))))
              options.
Proof.
  unfold initialize. destruct (isEmpty options); [discriminate|].
  cbv zeta. unfold bind at 1. rewrite show_spec. cbv zeta.
  destruct (fst (_executeInAvailableDisplays _ (io s))); try discriminate.
  unfold bind, liftIO. cbn [this io].
  set (opts := List.map (fun e => (fst e, ws_set_template (snd e))) options).
  set (w2 := Store.setState _ _ _).
  pose proof (Promise_all_map_emits
                (fun e : string * WindowSettings =>
                   (_postRequest (ws_displayName (snd e)) (create_window (snd e))
                    : M World DisplayWindowOptions))
                (fun e => Rpc ("rpc-display-" +:+ JsString.of_optional (ws_displayName (snd e)))
                              (create_window (snd e)))
                opts (fun x w => eq_refl) w2) as Hp.
  destruct (Promise_all _ w2) as [o1 w3] eqn:E. simpl in Hp. subst w3.
  destruct o1 as [m| |]; try discriminate. intros [= <- <-].
  exists m. apply Promise_all_length in E. unfold opts in E. rewrite !length_map in E.
  split; [exact E|]. split; [reflexivity|]. split; [reflexivity|].
  simpl. unfold opts. rewrite List.map_map. simpl. now rewrite app_assoc.
Qed.

Lemma close_scan_from (m : list display_rpc_result) (b : bool) (acc : list display_rpc_result) :
  List.fold_left
    (fun acc res =>
       (if String.eqb (res_command res) "hide-display-context" then true else fst acc,
        snd acc ++ [res]))
    m (b, acc)
  = (b || existsb hidden m, acc ++ m).
Proof.
  revert b acc. induction m as [|res m IH]; intros b acc; simpl.
  - now rewrite orb_false_r, app_nil_r.
  - rewrite IH. unfold hidden. rewrite <- app_assoc. simpl.
    destruct (String.eqb (res_command res) "hide-display-context"); simpl.
    + now rewrite orb_true_r.
    + reflexivity.
Qed.

Lemma close_scan_spec (m : list display_rpc_result) :
  close_scan m = (existsb hidden m, m).
Proof. unfold close_scan. now rewrite close_scan_from. Qed.

Lemma check_bounds_from n windowName bounds b acc :
  List.fold_left
    (fun acc e =>
       (if String.eqb windowName (fst e) then true else fst acc,
        snd acc ++ [(fst e, ws_fill n (fst e) (snd e))]))
    bounds (b, acc)
  = (b || existsb (String.eqb windowName) (JsMap.keys bounds),
     acc ++ List.map (fun e => (fst e, ws_fill n (fst e) (snd e))) bounds).
Proof.
  revert b acc. induction bounds as [|e bounds IH]; intros b acc; simpl.
  - now rewrite orb_false_r, app_nil_r.
  - rewrite IH. rewrite <- app_assoc. simpl.
    destruct (String.eqb windowName (fst e)); simpl; [now rewrite orb_true_r | reflexivity].
Qed.

(** [windowNameCheck] says whether [windowName] is a key of [bounds]. *)
Lemma check_bounds_spec n windowName bounds :
  check_bounds n windowName bounds
  = (existsb (String.eqb windowName) (JsMap.keys bounds),
     List.map (fun e => (fst e, ws_fill n (fst e) (snd e))) bounds).
Proof. unfold check_bounds. now rewrite check_bounds_from. Qed.

Lemma getDisplays_snd (w : World) :
  snd (DisplayContextFactory.getDisplays w)
  = emits (List.map (fun dm => Rpc dm get_display_bounds) (availableDisplayNames (queues w))) w.
Proof.
  unfold DisplayContextFactory.getDisplays, bind, ret.
  pose proof (Promise_all_calls_snd get_display_bounds (availableDisplayNames (queues w)) w) as H.
  destruct (Promise_all _ w) as [o w1]. simpl in H. subst w1. now destruct o.
Qed.

(* ===================================================================== *)
(** * The loop of reconciliation over the replies *)
(* ===================================================================== *)

Lemma windowCount_gather_windows ws g :
  windowCount (gather_windows ws g) = windowCount g + List.length ws.
Proof.
  unfold gather_windows. revert g.
  induction ws as [|e ws IH]; intros g; simpl; [lia|]. rewrite IH. simpl. lia.
Qed.

Lemma windowCount_gather_viewObjects n vos g :
  windowCount (gather_viewObjects n vos g) = windowCount g.
Proof.
  unfold gather_viewObjects. revert g.
  induction vos as [|e vos IH]; intros g; simpl; [reflexivity|]. rewrite IH.
  now destruct (JsMap.get (snd e) (g_displayWindows g)).
Qed.

Lemma windowCount_fold n states g :
  windowCount (List.fold_left (gather_state n) states g) = windowCount g + total_windows states.
Proof.
  unfold total_windows. revert g.
  induction states as [|state states IH]; intros g; simpl; [lia|].
  rewrite IH. unfold gather_state.
  destruct (st_viewObjects state); [rewrite windowCount_gather_viewObjects|];
    (destruct (st_windows state); [rewrite windowCount_gather_windows|]); lia.
Qed.

(** The counter of the loop is the number of window entries in the
    replies. *)
Lemma windowCount_gather n states :
  windowCount (gather n states) = total_windows states.
Proof. unfold gather. now rewrite windowCount_fold. Qed.

Lemma gather_windows_viewObjects ws g :
  g_viewObjects (gather_windows ws g) = g_viewObjects g.
Proof.
  unfold gather_windows. revert g.
  induction ws as [|e ws IH]; intros g; simpl; [reflexivity | now rewrite IH].
Qed.

Lemma gather_windows_has ws g k :
  JsMap.has k (g_displayWindows g) = true ->
  JsMap.has k (g_displayWindows (gather_windows ws g)) = true.
Proof.
  unfold gather_windows. revert g.
  induction ws as [|e ws IH]; intros g H; simpl; [assumption|].
  apply IH. simpl. now apply has_set_mono.
Qed.

Lemma gather_windows_In ws g k wn :
  In (k, wn) (g_displayWindows (gather_windows ws g)) ->
  In (k, wn) (g_displayWindows g)
  \/ exists opts, In (k, opts) ws /\ wn = new_DisplayWindow opts.
Proof.
  unfold gather_windows. revert g.
  induction ws as [|[k0 o0] ws IH]; intros g H; simpl in *; [now left|].
  apply IH in H as [H|[opts [Hin ->]]].
  - simpl in H. apply In_set in H as [[-> ->]|H]; [|now left].
    right. exists o0. split; [now left | reflexivity].
  - right. exists opts. split; [now right | reflexivity].
Qed.

Lemma gather_viewObjects_displayWindows n vos g :
  g_displayWindows (gather_viewObjects n vos g) = g_displayWindows g.
Proof.
  unfold gather_viewObjects. revert g.
  induction vos as [|e vos IH]; intros g; simpl; [reflexivity|]. rewrite IH.
  now destruct (JsMap.get (snd e) (g_displayWindows g)).
Qed.

Lemma gather_viewObjects_In n vos g k vo :
  In (k, vo) (g_viewObjects (gather_viewObjects n vos g)) ->
  In (k, vo) (g_viewObjects g)
  \/ exists w wn,
       In (k, w) vos /\ JsMap.get w (g_displayWindows g) = Some wn
       /\ vo_windowName vo = dw_windowName wn.
Proof.
  unfold gather_viewObjects. revert g.
  induction vos as [|[k0 w0] vos IH]; intros g H; simpl in *; [now left|].
  apply IH in H as [H|[w [wn [Hin [Hget E]]]]].
  - destruct (JsMap.get w0 (g_displayWindows g)) as [wn|] eqn:Hget; [|now left].
    simpl in H. apply In_set in H as [[-> ->]|H]; [|now left].
    right. exists w0, wn. split; [now left|]. now split.
  - right. exists w, wn. split; [now right|]. split; [|assumption].
    destruct (JsMap.get w0 (g_displayWindows g)); exact Hget.
Qed.

Lemma reported_in_app_l seen state k w :
  reported_in seen k w -> reported_in (seen ++ [state]) k w.
Proof.
  intros [st [vos [Hin H]]]. exists st, vos. split; [|exact H].
  apply in_or_app. now left.
Qed.

Lemma gather_state_well n g state :
  keyed_by_name state ->
  gathered_well g -> gathered_well (gather_state n g state).
Proof.
  intros Hk [Hw Hp]. unfold gather_state.
  set (g1 := match st_windows state with Some ws => gather_windows ws g | None => g end).
  assert (Hw1 : forall k wn, In (k, wn) (g_displayWindows g1) -> dw_windowName wn = k).
  { subst g1. destruct (st_windows state) as [ws|] eqn:E; [|exact Hw].
    intros k wn H. apply gather_windows_In in H as [H|[opts [Hin ->]]]; [now apply Hw|].
    simpl. eapply Hk; eauto. }
  assert (Hp1 : forall k vo, In (k, vo) (g_viewObjects g1) ->
                             JsMap.has (vo_windowName vo) (g_displayWindows g1) = true).
  { subst g1. destruct (st_windows state) as [ws|]; [|exact Hp].
    intros k vo H. rewrite gather_windows_viewObjects in H.
    apply gather_windows_has. eapply Hp; eauto. }
  clearbody g1. destruct (st_viewObjects state) as [vos|]; [|now split].
  split.
  - intros k wn. rewrite gather_viewObjects_displayWindows. apply Hw1.
  - intros k vo H. rewrite gather_viewObjects_displayWindows.
    apply gather_viewObjects_In in H as [H|[w [wn [_ [Hget ->]]]]]; [eapply Hp1; eauto|].
    apply JsMapFacts.get_In in Hget. rewrite (Hw1 _ _ Hget).
    apply JsMapFacts.has_keys. change w with (fst (w, wn)). now apply in_map.
Qed.

Lemma gather_state_reported n seen g state :
  gathered_reported seen g -> gathered_reported (seen ++ [state]) (gather_state n g state).
Proof.
  intros Hr. unfold gather_state.
  set (g1 := match st_windows state with Some ws => gather_windows ws g | None => g end).
  assert (Hr1 : gathered_reported seen g1).
  { subst g1. destruct (st_windows state) as [ws|]; [|exact Hr].
    intros k vo H. rewrite gather_windows_viewObjects in H.
    destruct (Hr _ _ H) as [w [Hrep Hhas]]. exists w. split; [exact Hrep|].
    now apply gather_windows_has. }
  clearbody g1. destruct (st_viewObjects state) as [vos|] eqn:E.
  - intros k vo H. rewrite gather_viewObjects_displayWindows.
    apply gather_viewObjects_In in H as [H|[w [wn [Hin [Hget _]]]]].
    + destruct (Hr1 _ _ H) as [w [Hrep Hhas]]. exists w.
      split; [now apply reported_in_app_l | exact Hhas].
    + exists w. split.
      * exists state, vos. split; [apply in_or_app; right; now left | now split].
      * unfold JsMap.has. now rewrite Hget.
  - intros k vo H. destruct (Hr1 _ _ H) as [w [Hrep Hhas]]. exists w.
    split; [now apply reported_in_app_l | exact Hhas].
Qed.

Lemma gather_fold_well n states g :
  Forall keyed_by_name states ->
  gathered_well g ->
  gathered_well (List.fold_left (gather_state n) states g).
Proof.
  intros HF. revert g. induction HF as [|state states Hk _ IH]; intros g Hg; simpl.
  - exact Hg.
  - apply IH. now apply gather_state_well.
Qed.

Lemma gather_fold_reported n states seen g :
  gathered_reported seen g ->
  gathered_reported (seen ++ states) (List.fold_left (gather_state n) states g).
Proof.
  revert seen g. induction states as [|state states IH]; intros seen g Hg; simpl.
  - now rewrite app_nil_r.
  - replace (seen ++ state :: states) with ((seen ++ [state]) ++ states)
      by now rewrite <- app_assoc.
    apply IH. now apply gather_state_reported.
Qed.

Lemma gather_well n states :
  Forall keyed_by_name states -> gathered_well (gather n states).
Proof.
  intros HF. apply (gather_fold_well n states _ HF).
  split; intros ? ? [].
Qed.

Lemma gather_reported n states : gathered_reported states (gather n states).
Proof.
  apply (gather_fold_reported n states [] _). intros ? ? [].
Qed.

Lemma gather_windows_wf ws g :
  JsMap.wf (g_displayWindows g) -> JsMap.wf (g_displayWindows (gather_windows ws g)).
Proof.
  unfold gather_windows. revert g.
  induction ws as [|e ws IH]; intros g H; simpl; [assumption|].
  apply IH. simpl. now apply JsMapFacts.wf_set.
Qed.

Lemma gather_viewObjects_wf n vos g :
  JsMap.wf (g_viewObjects g) -> JsMap.wf (g_viewObjects (gather_viewObjects n vos g)).
Proof.
  unfold gather_viewObjects. revert g.
  induction vos as [|e vos IH]; intros g H; simpl; [assumption|].
  apply IH. destruct (JsMap.get (snd e) (g_displayWindows g)); [|assumption].
  simpl. now apply JsMapFacts.wf_set.
Qed.

Lemma gather_wf n states :
  JsMap.wf (g_displayWindows (gather n states)) /\ JsMap.wf (g_viewObjects (gather n states)).
Proof.
  unfold gather.
  assert (G : forall g, JsMap.wf (g_displayWindows g) /\ JsMap.wf (g_viewObjects g) ->
                        JsMap.wf (g_displayWindows (List.fold_left (gather_state n) states g))
                        /\ JsMap.wf (g_viewObjects (List.fold_left (gather_state n) states g))).
  { induction states as [|state states IH]; intros g [Hw Hv]; simpl; [now split|].
    apply IH. unfold gather_state.
    destruct (st_viewObjects state) as [vos|], (st_windows state) as [ws|];
      rewrite ?gather_viewObjects_displayWindows; split;
      try apply gather_viewObjects_wf; rewrite ?gather_windows_viewObjects;
      try apply gather_windows_wf; assumption. }
  apply G. split; apply JsMapFacts.wf_clear.
Qed.

(* ===================================================================== *)
(** * Reconciliation as a whole *)
(* ===================================================================== *)

Lemma restoreFromDisplayWorkerStates_unfold
  (src : Source) (reset : bool) (s : Obj) (states : list WorkerState) (w1 : World) :
  _executeInAvailableDisplays (get_dw_context_windows_vbo (name (this s))) (io s)
    = (Resolved states, w1) ->
  restoreFromDisplayWorkerStates src reset s =
  (if Nat.eqb (total_windows states) 0
   then (bounds <- getWindowBounds ;; initialize src bounds)
   else if reset
   then (_ <- show src ;; m <- reloadAll ;; ret m)
   else show src) (gathered s states w1).
Proof.
  intros H. unfold restoreFromDisplayWorkerStates, bind at 1, liftIO. rewrite H.
  cbn [this io]. rewrite windowCount_gather. fold (gathered s states w1).
  destruct (Nat.eqb (total_windows states) 0); [reflexivity|]. now destruct reset.
Qed.

(** What reconciliation leaves in the object, once the fan-out has
    resolved: the name it had, the panes gathered from the replies, and at
    least the windows gathered from the replies. *)
Lemma restoreFromDisplayWorkerStates_object
  (src : Source) (reset : bool) (s : Obj) (states : list WorkerState) (w1 : World) o s' :
  _executeInAvailableDisplays (get_dw_context_windows_vbo (name (this s))) (io s)
    = (Resolved states, w1) ->
  restoreFromDisplayWorkerStates src reset s = (o, s') ->
  let g := gather (name (this s)) states in
  name (this s') = name (this s) /\
  viewObjects (this s') = g_viewObjects g /\
  (forall k, JsMap.has k (g_displayWindows g) = true ->
             JsMap.has k (displayWindows (this s')) = true).
Proof.
  intros H. rewrite (restoreFromDisplayWorkerStates_unfold _ _ _ _ _ H).
  destruct (Nat.eqb (total_windows states) 0); [|destruct reset].
  - unfold bind.
    pose proof (getWindowBounds_frame (gathered s states w1)) as F.
    destruct (getWindowBounds (gathered s states w1)) as [ob sb]. cbv zeta in F. simpl snd in F.
    destruct F as [Fn [Fw [Fv _]]].
    destruct ob; try (intros [= <- <-]; cbv zeta; rewrite Fn, Fw, Fv; now auto).
    intros Hi. pose proof (initialize_frame _ _ _ _ _ Hi) as [In_ [Iv _]].
    cbv zeta. rewrite In_, Iv, Fn, Fv. repeat split.
    intros k Hk. eapply initialize_windows; [exact Hi|]. now rewrite Fw.
  - intros Hr. apply show_then_reloadAll_this in Hr. rewrite Hr. cbv zeta. simpl. auto.
  - intros Hr. pose proof (show_this src (gathered s states w1)) as Ht.
    rewrite Hr in Ht. simpl in Ht. rewrite Ht. cbv zeta. simpl. auto.
Qed.

Lemma restoreFromDisplayWorkerStates_name (src : Source) (reset : bool) (s : Obj) o s' :
  restoreFromDisplayWorkerStates src reset s = (o, s') -> name (this s') = name (this s).
Proof.
  destruct (_executeInAvailableDisplays (get_dw_context_windows_vbo (name (this s))) (io s))
    as [o1 w1] eqn:E.
  destruct o1 as [states|e|].
  - intros H. now destruct (restoreFromDisplayWorkerStates_object _ _ _ _ _ _ _ E H).
  - unfold restoreFromDisplayWorkerStates, bind, liftIO. rewrite E.
    now intros [= <- <-].
  - unfold restoreFromDisplayWorkerStates, bind, liftIO. rewrite E.
    now intros [= <- <-].
Qed.


(** Reconciliation sends requests and nothing else. *)
Lemma restoreFromDisplayWorkerStates_trace (src : Source) (reset : bool) (s : Obj) :
  exists es,
    trace (io (snd (restoreFromDisplayWorkerStates src reset s))) = trace (io s) ++ es
    /\ Forall other_request es.
Proof.
  set (cmd := get_dw_context_windows_vbo (name (this s))).
  pose proof (_executeInAvailableDisplays_snd cmd (io s)) as Hw.
  destruct (_executeInAvailableDisplays cmd (io s)) as [o1 w1] eqn:E.
  simpl in Hw. subst w1.
  assert (H0 : Forall other_request (sent cmd (io s))) by (now apply sent_other).
  destruct o1 as [states|e|].
  2,3: unfold restoreFromDisplayWorkerStates, bind, liftIO; fold cmd; rewrite E;
       exists (sent cmd (io s)); now split.
  rewrite (restoreFromDisplayWorkerStates_unfold _ _ _ _ _ E).
  set (s2 := gathered s states _).
  assert (T2 : trace (io s2) = trace (io s) ++ sent cmd (io s)) by reflexivity.
  assert (step : forall s', (exists es, trace (io s') = trace (io s2) ++ es
                                        /\ Forall other_request es) ->
                            exists es, trace (io s') = trace (io s) ++ es
                                       /\ Forall other_request es).
  { intros s' [es [T F]]. exists (sent cmd (io s) ++ es). split.
    - now rewrite T, T2, app_assoc.
    - apply Forall_app. now split. }
  apply step.
  destruct (Nat.eqb (total_windows states) 0); [|destruct reset].
  - unfold bind.
    pose proof (getWindowBounds_trace s2) as [es1 [T1 N1]].
    destruct (getWindowBounds s2) as [ob sb]. simpl in T1.
    destruct ob as [bounds|e|]; try (exists es1; now split).
    pose proof (initialize_trace src bounds sb) as [es3 [T3 N3]].
    exists (es1 ++ es3). split.
    + now rewrite T3, T1, app_assoc.
    + apply Forall_app. now split.
  - unfold bind at 1. rewrite show_spec. cbv zeta.
    set (shown := sent (set_display_context (name (this s2))) (io s2)).
    assert (Hs : Forall other_request shown) by (now apply sent_other).
    destruct (fst (_executeInAvailableDisplays _ (io s2))); try (exists shown; now split).
    unfold bind, ret.
    set (s3 := {| this := this s2; io := _ |}).
    pose proof (reloadAll_snd s3) as Hr.
    destruct (reloadAll s3) as [o3 s4]. simpl in Hr. subst s4.
    exists (shown ++ reloads (this s3)). split.
    + destruct o3; simpl; now rewrite app_assoc.
    + apply Forall_app. split; [exact Hs|].
      unfold reloads. apply List.Forall_map, List.Forall_forall. intros; exact I.
  - rewrite show_spec. cbv zeta.
    set (shown := sent (set_display_context (name (this s2))) (io s2)).
    assert (Hs : Forall other_request shown) by (now apply sent_other).
    destruct (fst (_executeInAvailableDisplays _ (io s2))); exists shown; now split.
Qed.

(** Whatever reconciliation does, the store changes at most by naming
    this context as the active one. *)
Lemma restoreFromDisplayWorkerStates_store (src : Source) (reset : bool) (s : Obj) o s' :
  restoreFromDisplayWorkerStates src reset s = (o, s') ->
  store (io s') = store (io s)
  \/ store (io s') = <[Store.activeDisplayContext := name (this s)]> (store (io s)).
Proof.
  set (cmd := get_dw_context_windows_vbo (name (this s))).
  pose proof (_executeInAvailableDisplays_snd cmd (io s)) as Hw.
  destruct (_executeInAvailableDisplays cmd (io s)) as [o1 w1] eqn:E.
  simpl in Hw. subst w1.
  destruct o1 as [states|e|].
  2,3: unfold restoreFromDisplayWorkerStates, bind, liftIO; fold cmd; rewrite E;
       intros [= <- <-]; now left.
  rewrite (restoreFromDisplayWorkerStates_unfold _ _ _ _ _ E).
  set (s2 := gathered s states _).
  destruct (Nat.eqb (total_windows states) 0); [|destruct reset].
  - unfold bind.
    pose proof (getWindowBounds_frame s2) as F.
    destruct (getWindowBounds s2) as [ob sb]. cbv zeta in F. simpl snd in F.
    destruct F as [Fn [_ [_ [_ Fs]]]].
    destruct ob as [bounds|e|]; try (intros [= <- <-]; left; exact Fs).
    intros Hi. apply initialize_store in Hi. rewrite Fn, Fs in Hi. exact Hi.
  - unfold bind at 1. rewrite show_spec. cbv zeta.
    destruct (fst (_executeInAvailableDisplays _ (io s2))); try (intros [= <- <-]; now left).
    unfold bind, ret.
    set (s3 := {| this := this s2; io := _ |}).
    pose proof (reloadAll_snd s3) as Hr.
    destruct (reloadAll s3) as [o3 s4]. simpl in Hr. subst s4.
    destruct o3; intros [= <- <-]; right; reflexivity.
  - rewrite show_spec. cbv zeta.
    destruct (fst (_executeInAvailableDisplays _ (io s2))); intros [= <- <-];
      [right | left | left]; reflexivity.
Qed.

(** Reconciliation that passes the fan-out leaves maps in the object that
    hold each key once, as [_clean] expects. *)
Lemma restoreFromDisplayWorkerStates_wf
  (src : Source) (reset : bool) (s : Obj) (states : list WorkerState) (w1 : World) o s' :
  _executeInAvailableDisplays (get_dw_context_windows_vbo (name (this s))) (io s)
    = (Resolved states, w1) ->
  restoreFromDisplayWorkerStates src reset s = (o, s') ->
  JsMap.wf (displayWindows (this s')) /\ JsMap.wf (viewObjects (this s')).
Proof.
  intros H Hr.
  destruct (restoreFromDisplayWorkerStates_object _ _ _ _ _ _ _ H Hr) as [_ [Hv _]].
  destruct (gather_wf (name (this s)) states) as [Gw Gv].
  split; [|now rewrite Hv].
  revert Hr. rewrite (restoreFromDisplayWorkerStates_unfold _ _ _ _ _ H).
  destruct (Nat.eqb (total_windows states) 0); [|destruct reset].
  - unfold bind.
    pose proof (getWindowBounds_frame (gathered s states w1)) as F.
    destruct (getWindowBounds (gathered s states w1)) as [ob sb]. cbv zeta in F. simpl snd in F.
    destruct F as [_ [Fw _]].
    assert (Hb : JsMap.wf (displayWindows (this sb))) by (rewrite Fw; exact Gw).
    destruct ob as [bounds|e|]; try (intros [= <- <-]; exact Hb).
    unfold initialize. destruct (isEmpty bounds); [intros [= <- <-]; exact Hb|].
    cbv zeta. unfold bind at 1. rewrite show_spec. cbv zeta.
    destruct (fst (_executeInAvailableDisplays _ (io sb)));
      try (intros [= <- <-]; exact Hb).
    unfold bind, liftIO. cbn [this io].
    destruct (Promise_all _ _) as [o1 w2].
    destruct o1; intros [= <- <-]; cbn; try exact Hb.
    apply (fold_set_wf dwo_windowName new_DisplayWindow). exact Hb.
  - intros Hr. apply show_then_reloadAll_this in Hr. rewrite Hr. exact Gw.
  - intros Hr. pose proof (show_this src (gathered s states w1)) as Ht.
    rewrite Hr in Ht. simpl in Ht. rewrite Ht. exact Gw.
Qed.

Lemma _clean_wf (D : string) (s : Obj) :
  JsMap.wf (displayWindows (this s)) -> JsMap.wf (viewObjects (this s)) ->
  JsMap.wf (displayWindows (this (_clean D s))) /\ JsMap.wf (viewObjects (this (_clean D s))).
Proof.
  intros Hw Hv. unfold _clean. cbv zeta.
  rewrite (JsMapFacts.delete_all_keys_where
             (fun v => String.eqb (dw_displayName v) D) _ Hw).
  cbn [viewObjects set_displayWindows displayWorkerQuitHandler set_viewObjects].
  rewrite (JsMapFacts.delete_all_keys_where
             (fun v => String.eqb (vo_displayName v) D) _ Hv).
  destruct (displayWorkerQuitHandler (this s)); simpl;
    split; now apply JsMapFacts.wf_filter.
Qed.

(* ===================================================================== *)
(** * The replies, the bounds and the initialization *)
(* ===================================================================== *)

Lemma Promise_all_calls_resolved (cmd : Command) (qs : list string) (w : World) rs w' :
  Promise_all (List.map (fun dm => Mq.call dm cmd) qs) w = (Resolved rs, w') ->
  Forall2 (fun dm r => workers w dm cmd = Some r) qs rs.
Proof.
  revert w rs w'. induction qs as [|q qs IH]; intros w rs w'; simpl.
  - intros [= <- _]. constructor.
  - destruct (Promise_all _ (emit (Rpc q cmd) w)) as [os w2] eqn:E.
    intros [= H _].
    destruct (workers w q cmd) as [r|] eqn:Hq; [|discriminate].
    destruct os as [l| |]; simpl in H; try discriminate.
    injection H as <-. constructor; [exact Hq|].
    exact (IH _ _ _ E).
Qed.

Lemma gather_no_windows (n : string) (states : list WorkerState) :
  total_windows states = 0 ->
  g_displayWindows (gather n states) = [] /\ g_viewObjects (gather n states) = [].
Proof.
  intros H0.
  assert (Hg : windowCount (gather n states) = 0) by (now rewrite windowCount_gather).
  assert (Hw : g_displayWindows (gather n states) = []).
  { assert (G : forall sts g,
               List.length (g_displayWindows (List.fold_left (gather_state n) sts g))
               <= windowCount (List.fold_left (gather_state n) sts g)
               \/ List.length (g_displayWindows g) > windowCount g).
    { induction sts as [|st sts IH]; intros g; simpl; [lia|].
      destruct (IH (gather_state n g st)) as [L|L]; [now left|].
      right. revert L. unfold gather_state.
      assert (W : forall ws g0,
                 List.length (g_displayWindows (gather_windows ws g0))
                 > windowCount (gather_windows ws g0) ->
                 List.length (g_displayWindows g0) > windowCount g0).
      { unfold gather_windows. induction ws as [|e0 ws IHw]; intros g0; simpl; [tauto|].
        intros L. apply IHw in L. simpl in L.
        pose proof (JsMapFacts.keys_set (g_displayWindows g0) (fst e0)
                      (new_DisplayWindow (snd e0))) as K.
        apply (f_equal (@List.length string)) in K. unfold JsMap.keys in K.
        rewrite length_map in K.
        destruct (JsMap.has (fst e0) (g_displayWindows g0));
          rewrite ?length_app, !length_map in K; simpl in K; lia. }
      destruct (st_viewObjects st); [rewrite gather_viewObjects_displayWindows,
                                       windowCount_gather_viewObjects|];
        (destruct (st_windows st); [apply W | tauto]). }
    destruct (G states {| windowCount := 0; g_displayWindows := JsMap.clear;
                          g_viewObjects := JsMap.clear |}) as [L|L]; [|simpl in L; lia].
    fold (gather n states) in L. rewrite Hg in L.
    destruct (g_displayWindows (gather n states)); [reflexivity | simpl in L; lia]. }
  split; [exact Hw|].
  destruct (g_viewObjects (gather n states)) as [|[k vo] l] eqn:E; [reflexivity|].
  destruct (gather_reported n states k vo) as [w [_ Hhas]].
  - rewrite E. now left.
  - rewrite Hw in Hhas. discriminate.
Qed.

Lemma gather_windows_keys ws g k :
  In k (JsMap.keys (g_displayWindows (gather_windows ws g)))
  <-> In k (JsMap.keys (g_displayWindows g)) \/ In k (JsMap.keys ws).
Proof.
  unfold gather_windows. revert g.
  induction ws as [|e ws IH]; intros g; simpl; [tauto|].
  rewrite IH. simpl. rewrite JsMapFacts.In_keys_set. intuition congruence.
Qed.

Lemma gather_fold_keys n states g k :
  In k (JsMap.keys (g_displayWindows (List.fold_left (gather_state n) states g)))
  <-> In k (JsMap.keys (g_displayWindows g)) \/ In k (reported_window_names states).
Proof.
  unfold reported_window_names. revert g.
  induction states as [|state states IH]; intros g; simpl; [tauto|].
  rewrite IH, in_app_iff. unfold gather_state.
  destruct (st_viewObjects state); rewrite ?gather_viewObjects_displayWindows;
    (destruct (st_windows state); [rewrite gather_windows_keys|]); simpl; tauto.
Qed.

Lemma gather_viewObjects_ids n vos g :
  (forall k vo, In (k, vo) (g_viewObjects g) ->
                view_id vo = k /\ vo_displayContext vo = Some n) ->
  forall k vo, In (k, vo) (g_viewObjects (gather_viewObjects n vos g)) ->
               view_id vo = k /\ vo_displayContext vo = Some n.
Proof.
  unfold gather_viewObjects. revert g.
  induction vos as [|e vos IH]; intros g Hg; simpl; [exact Hg|].
  apply IH. destruct (JsMap.get (snd e) (g_displayWindows g)); [|exact Hg].
  simpl. intros k vo Hin. apply In_set in Hin as [[-> ->]|Hin]; [now split | now apply Hg].
Qed.

Lemma gather_ids n states :
  forall k vo, In (k, vo) (g_viewObjects (gather n states)) ->
               view_id vo = k /\ vo_displayContext vo = Some n.
Proof.
  unfold gather.
  assert (G : forall g,
             (forall k vo, In (k, vo) (g_viewObjects g) ->
                           view_id vo = k /\ vo_displayContext vo = Some n) ->
             forall k vo, In (k, vo) (g_viewObjects (List.fold_left (gather_state n) states g)) ->
                          view_id vo = k /\ vo_displayContext vo = Some n).
  { induction states as [|state states IH]; intros g Hg; simpl; [exact Hg|].
    apply IH. unfold gather_state.
    destruct (st_viewObjects state); [apply gather_viewObjects_ids|];
      (destruct (st_windows state); [rewrite gather_windows_viewObjects|]); exact Hg. }
  apply G. intros k vo [].
Qed.




















(* ===================================================================== *)
(** * Making a context the active one: [setActive] *)
(* ===================================================================== *)

(** When reconciliation does not resolve, [setActive] settles the same
    way and publishes nothing. *)
Lemma setActive_reconciliation_fails (display_ctx_name : string) (reset : bool) (w : World)
  (o : outcome Value) (s' : Obj) :
  Store.getState Store.activeDisplayContext w <> Some display_ctx_name ->
  restoreFromDisplayWorkerStates TypeScript reset
    {| this := new_DisplayContext display_ctx_name [];
       io := Store.setState Store.activeDisplayContext display_ctx_name w |} = (o, s') ->
  (forall m, o <> Resolved m) ->
  DisplayContextFactory.setActive display_ctx_name reset w = (o, io s').
Proof.
  intros Hne Hr Ho.
  unfold DisplayContextFactory.setActive, Store.getset, DisplayContextFactory.on_, bind.
  fold (Store.getState Store.activeDisplayContext w).
  rewrite bool_decide_false by exact Hne. simpl negb. cbv iota.
  fold (Store.setState Store.activeDisplayContext display_ctx_name w). rewrite Hr.
  destruct o as [m|e|]; [now destruct (Ho m) | reflexivity | reflexivity].
Qed.

(** C1, amended. When the value [setActive] reads from the store, as it
    writes the new name there, is not the requested name, it reconciles a
    new context of that name in the world so obtained; when reconciliation
    resolves with [m], [setActive] then publishes one
    [display.displayContext.changed] topic carrying the new name and the
    value read, as the last thing it does (reconciliation itself sends
    only requests), and resolves with [m], the result of reconciliation. *)
Theorem setActive_switches (display_ctx_name : string) (reset : bool) (w : World)
  (m : Value) (s' : Obj) :
  Store.getState Store.activeDisplayContext w <> Some display_ctx_name ->
  restoreFromDisplayWorkerStates TypeScript reset
    {| this := new_DisplayContext display_ctx_name [];
       io := Store.setState Store.activeDisplayContext display_ctx_name w |}
    = (Resolved m, s') ->
  let changed :=
    Topic "display.displayContext.changed"
      (displayContextChanged display_ctx_name
         (Store.getState Store.activeDisplayContext w)) in
  DisplayContextFactory.setActive display_ctx_name reset w
    = (Resolved m, emit changed (io s'))
  /\ exists es,
       Forall other_request es
       /\ trace (io s') = trace w ++ es
       /\ trace (emit changed (io s')) = trace w ++ es ++ [changed].
Proof.
  intros Hne Hr changed.
  pose proof (restoreFromDisplayWorkerStates_trace TypeScript reset
                {| this := new_DisplayContext display_ctx_name [];
                   io := Store.setState Store.activeDisplayContext display_ctx_name w |})
    as [es [T F]].
  rewrite Hr in T. simpl in T.
  split.
  - unfold DisplayContextFactory.setActive, Store.getset, DisplayContextFactory.on_, bind.
    fold (Store.getState Store.activeDisplayContext w).
    rewrite bool_decide_false by exact Hne. simpl negb. cbv iota.
    fold (Store.setState Store.activeDisplayContext display_ctx_name w). now rewrite Hr.
  - exists es. split; [exact F|]. split; [exact T|].
    simpl. now rewrite T, app_assoc.
Qed.

Lemma setActive_switches_witness :
  let s' :=
    {| this := set_viewObjects
                 [("p1", {| view_id := "p1"; vo_displayName := "d1";
                            vo_windowName := "main";
                            vo_displayContext := Some "A" |})]
                 (set_displayWindows
                    [("main", new_DisplayWindow (Fixture.window "main" "d1"))]
                    (new_DisplayContext "A" []));
       io := Store.setState Store.activeDisplayContext "A"
               (emits [Rpc "rpc-display-d1" (get_dw_context_windows_vbo "A");
                       Rpc "rpc-display-d1" (set_display_context "A")]
                  (Store.setState Store.activeDisplayContext "A" Fixture.w0)) |} in
  let changed :=
    Topic "display.displayContext.changed" (displayContextChanged "A" (Some "B")) in
  DisplayContextFactory.setActive "A" false Fixture.w0
    = (Resolved VUndefined, emit changed (io s'))
  /\ exists es,
       Forall other_request es
       /\ trace (io s') = [] ++ es
       /\ trace (emit changed (io s')) = [] ++ es ++ [changed].
Proof.
  intros s'.
  apply (setActive_switches "A" false Fixture.w0 VUndefined s').
  - discriminate.
  - reflexivity.
Defined.

(** C1 as stated fails on what [setActive] returns: with context [B]
    active and one worker that remembers a window of the context asked
    for, [setActive("A")] reads [B], which is not [A], reconciles,
    publishes the change from [B] to [A], and resolves with what
    reconciliation resolved with, [undefined], not with the name [B]. *)
Lemma setActive_returns_previous_counterexample :
  Store.getState Store.activeDisplayContext Fixture.w0 = Some "B"
  /\ Some "B" <> Some "A"
  /\ fst (DisplayContextFactory.setActive "A" false Fixture.w0) = Resolved VUndefined
  /\ fst (DisplayContextFactory.setActive "A" false Fixture.w0) <> Resolved (VString "B")
  /\ trace (snd (DisplayContextFactory.setActive "A" false Fixture.w0))
     = [Rpc "rpc-display-d1" (get_dw_context_windows_vbo "A");
        Rpc "rpc-display-d1" (set_display_context "A");
        Topic "display.displayContext.changed" (displayContextChanged "A" (Some "B"))].
Proof.
  split; [reflexivity|]. split; [discriminate|].
  assert (E : fst (DisplayContextFactory.setActive "A" false Fixture.w0) = Resolved VUndefined)
    by (vm_compute; reflexivity).
  split; [exact E|]. split; [rewrite E; discriminate|].
  vm_compute. reflexivity.
Qed.

(** C4. When the store already names [display_ctx_name] as the active
    context, [setActive] resolves with [false] and leaves the world as it
    was: no request is sent to any worker and no topic is published. *)
Theorem setActive_already_active (display_ctx_name : string) (reset : bool) (w : World) :
  Store.getState Store.activeDisplayContext w = Some display_ctx_name ->
  DisplayContextFactory.setActive display_ctx_name reset w = (Resolved (VBool false), w).
Proof.
  unfold DisplayContextFactory.setActive, Store.getset, Store.getState.
  intros H. rewrite H. rewrite bool_decide_true by reflexivity. simpl.
  f_equal. apply with_store_id. now apply insert_id.
Qed.

Lemma setActive_already_active_witness :
  DisplayContextFactory.setActive "B" true Fixture.w0 = (Resolved (VBool false), Fixture.w0).
Proof.
  apply (setActive_already_active "B" true Fixture.w0). reflexivity.
Defined.


(* ===================================================================== *)
(** * The branches of reconciliation, and no dangling panes *)
(* ===================================================================== *)



(** C6, amended. Let the fan-out of reconciliation resolve with the
    replies [states], and let reconciliation resolve.  A pane that every
    worker reporting it places in a window that is not among the windows
    gathered from the replies is not in the pane map.  And when every
    worker reports each of its windows under the window's own name, the
    [windowName] of every pane of the map is a key of the window map. *)
Theorem restoreFromDisplayWorkerStates_no_dangling
  (src : Source) (reset : bool) (s : Obj) (states : list WorkerState) (w1 : World)
  (v : Value) (s' : Obj) :
  _executeInAvailableDisplays (get_dw_context_windows_vbo (name (this s))) (io s)
    = (Resolved states, w1) ->
  restoreFromDisplayWorkerStates src reset s = (Resolved v, s') ->
  (forall k,
     (forall w, reported_in states k w ->
                JsMap.has w (g_displayWindows (gather (name (this s)) states)) = false) ->
     JsMap.has k (viewObjects (this s')) = false)
  /\ (Forall keyed_by_name states -> no_dangling (this s')).
Proof.
  intros H Hr.
  destruct (restoreFromDisplayWorkerStates_object _ _ _ _ _ _ _ H Hr) as [_ [Hv Hw]].
  split.
  - intros k Hk. rewrite Hv.
    destruct (JsMap.has k (g_viewObjects (gather (name (this s)) states))) eqn:E; [|reflexivity].
    unfold JsMap.has in E.
    destruct (JsMap.get k (g_viewObjects (gather (name (this s)) states))) as [vo|] eqn:G;
      [|discriminate].
    apply JsMapFacts.get_In in G.
    destruct (gather_reported (name (this s)) states _ _ G) as [w [Hrep Hhas]].
    rewrite (Hk _ Hrep) in Hhas. discriminate.
  - intros HF k vo Hin. rewrite Hv in Hin. apply Hw.
    destruct (gather_well (name (this s)) states HF) as [_ Hp]. eapply Hp; eauto.
Qed.

Lemma restoreFromDisplayWorkerStates_no_dangling_witness :
  let s := {| this := new_DisplayContext "B" []; io := Fixture.w0 |} in
  let s' := snd (restoreFromDisplayWorkerStates JavaScript false s) in
  (forall k,
     (forall w, reported_in [Fixture.remembers] k w ->
                JsMap.has w (g_displayWindows (gather "B" [Fixture.remembers])) = false) ->
     JsMap.has k (viewObjects (this s')) = false)
  /\ no_dangling (this s').
Proof.
  intros s s'.
  destruct (restoreFromDisplayWorkerStates_no_dangling JavaScript false s
              [Fixture.remembers]
              (emits [Rpc "rpc-display-d1" (get_dw_context_windows_vbo "B")] Fixture.w0)
              (VResults [Fixture.result "set-display-context" "d1"]) s'
              eq_refl eq_refl) as [Hdrop Hwell].
  split; [exact Hdrop|]. apply Hwell.
  repeat constructor. intros ws k opts [= <-] [[= <- <-]|[]]. reflexivity.
Defined.

(** C6 as stated fails: a worker that reports, under the key [main], a
    window whose [windowName] is [other], and a pane [p1] in [main].
    Reconciliation resolves; the pane map holds [p1] with the
    [windowName] [other], which is no key of the window map. *)
Lemma restoreFromDisplayWorkerStates_no_dangling_counterexample :
  let s := {| this := new_DisplayContext "alpha" []; io := Fixture.w_misnamed |} in
  let r := restoreFromDisplayWorkerStates JavaScript false s in
  fst r = Resolved (VResults [Fixture.result "set-display-context" "d1"])
  /\ JsMap.keys (displayWindows (this (snd r))) = ["main"]
  /\ List.map (fun e => (fst e, vo_windowName (snd e))) (viewObjects (this (snd r)))
     = [("p1", "other")]
  /\ ~ no_dangling (this (snd r)).
Proof.
  intros s r.
  assert (Ew : displayWindows (this (snd r))
               = [("main", new_DisplayWindow (Fixture.window "other" "d1"))])
    by (vm_compute; reflexivity).
  assert (Ev : viewObjects (this (snd r))
               = [("p1", {| view_id := "p1"; vo_displayName := "d1";
                            vo_windowName := "other";
                            vo_displayContext := Some "alpha" |})])
    by (vm_compute; reflexivity).
  split; [vm_compute; reflexivity|].
  split; [now rewrite Ew|].
  split; [now rewrite Ev|].
  intros ND. specialize (ND "p1" _ ltac:(rewrite Ev; left; reflexivity)).
  rewrite Ew in ND. discriminate ND.
Qed.

(* ===================================================================== *)
(** * Closing a context *)
(* ===================================================================== *)

(** C3. Let the fan-out of [close-display-context] resolve with the
    replies [m].  If one of them reports a hidden context, [close] leaves
    the window map, the pane map and the store untouched and sends nothing
    beyond the requests of the fan-out.  If none does, both maps are
    emptied, the key of the active context is deleted from the store
    exactly when it held this context's name, and after the requests one
    [display.displayContext.closed] topic is published with the replies as
    its details.  In both cases [close] resolves with [m]. *)
Theorem close_hidden_or_closed (s : Obj) (m : list display_rpc_result) (w1 : World) :
  _executeInAvailableDisplays (close_display_context (name (this s))) (io s)
    = (Resolved m, w1) ->
  exists s',
    close s = (Resolved m, s') /\
    if existsb hidden m
    then
      this s' = this s /\
      store (io s') = store (io s) /\
      trace (io s') = trace (io s) ++ sent (close_display_context (name (this s))) (io s)
    else
      name (this s') = name (this s) /\
      displayWindows (this s') = [] /\
      viewObjects (this s') = [] /\
      store (io s') =
        (if decide (store (io s) !! Store.activeDisplayContext = Some (name (this s)))
         then base.delete Store.activeDisplayContext (store (io s))
         else store (io s)) /\
      trace (io s') =
        trace (io s) ++ sent (close_display_context (name (this s))) (io s)
        ++ [Topic "display.displayContext.closed" (displayContextClosed m)].
Proof.
  intros H.
  pose proof (_executeInAvailableDisplays_snd (close_display_context (name (this s))) (io s)) as Hw.
  rewrite H in Hw. simpl in Hw. subst w1.
  unfold close, bind, liftIO. rewrite H. cbv beta iota. simpl this. simpl io.
  rewrite close_scan_spec. simpl fst. simpl snd.
  destruct (existsb hidden m); simpl negb; cbv iota.
  - eexists. split; [reflexivity|]. simpl. auto.
  - eexists. split; [reflexivity|]. simpl.
    repeat split.
    + unfold Store.getState. simpl.
      destruct (store (io s) !! Store.activeDisplayContext) as [x|] eqn:E.
      * destruct (String.eqb_spec x (name (this s))) as [->|Hne].
        -- now rewrite decide_True.
        -- rewrite decide_False; [reflexivity | congruence].
      * now rewrite decide_False.
    + unfold Store.getState. simpl.
      destruct (store (io s) !! Store.activeDisplayContext) as [x|]; [|now rewrite app_assoc].
      destruct (String.eqb x (name (this s))); simpl; now rewrite app_assoc.
Qed.

Lemma close_hidden_or_closed_witness :
  exists s',
    close {| this := Fixture.B; io := Fixture.hiding |}
      = (Resolved [Fixture.result "hide-display-context" "d1"], s') /\
    this s' = Fixture.B /\
    store (io s') = store Fixture.hiding /\
    trace (io s') = [Rpc "rpc-display-d1" (close_display_context "B")].
Proof.
  apply (close_hidden_or_closed {| this := Fixture.B; io := Fixture.hiding |}
           [Fixture.result "hide-display-context" "d1"]
           (emits [Rpc "rpc-display-d1" (close_display_context "B")] Fixture.hiding)).
  reflexivity.
Defined.

(* ===================================================================== *)
(** * The fan-out with no worker running *)
(* ===================================================================== *)

(** C5. When the queue listing holds no live display-worker queue, the
    fan-out of any request rejects with the error ["No display-worker
    found"] and sends nothing: it does not resolve, with an empty list of
    replies or otherwise. *)
Theorem executeInAvailableDisplays_no_workers (cmd : Command) (w : World) :
  availableDisplayNames (queues w) = [] ->
  _executeInAvailableDisplays cmd w = (Rejected (NoDisplayWorkerFound cmd), w)
  /\ (forall rs w', _executeInAvailableDisplays cmd w <> (Resolved rs, w')).
Proof.
  intros E. unfold _executeInAvailableDisplays. rewrite E. simpl.
  split; [reflexivity | discriminate].
Qed.

Lemma executeInAvailableDisplays_no_workers_witness :
  _executeInAvailableDisplays hide_all_windows Fixture.nobody
  = (Rejected (NoDisplayWorkerFound hide_all_windows), Fixture.nobody)
  /\ (forall rs w',
        _executeInAvailableDisplays hide_all_windows Fixture.nobody <> (Resolved rs, w')).
Proof.
  apply (executeInAvailableDisplays_no_workers hide_all_windows Fixture.nobody).
  reflexivity.
Defined.

(* ===================================================================== *)
(** * A worker goes away *)
(* ===================================================================== *)

(** C7. [_clean(D)] on a context whose maps hold each key once: the
    window map keeps exactly the windows whose display is not [D]; the
    pane map of the context so obtained keeps exactly the panes whose
    display is not [D]; nothing else of the object changes; and the quit
    handler, when one is registered, is called once with [D], the names
    of the windows that were removed and the ids of the panes that were
    removed, in the order of the maps.  With no handler nothing is
    called.  The handler of the topic [display.removed] and the handler
    of a deleted queue [rpc-display-D] both do exactly this. *)
Theorem _clean_removes_display (D : string) (s : Obj) :
  JsMap.wf (displayWindows (this s)) ->
  JsMap.wf (viewObjects (this s)) ->
  let removedWindows :=
    JsMap.keys (List.filter (fun e => String.eqb (dw_displayName (snd e)) D)
                            (displayWindows (this s))) in
  let removedViewObjects :=
    JsMap.keys (List.filter (fun e => String.eqb (vo_displayName (snd e)) D)
                            (viewObjects (this s))) in
  let c1 :=
    set_displayWindows
      (List.filter (fun e => negb (String.eqb (dw_displayName (snd e)) D))
                   (displayWindows (this s)))
      (this s) in
  let c2 :=
    set_viewObjects
      (List.filter (fun e => negb (String.eqb (vo_displayName (snd e)) D))
                   (viewObjects c1))
      c1 in
  _clean D s =
    {| this := c2;
       io := match displayWorkerQuitHandler (this s) with
             | Some handler =>
                 emit (QuitHandlerCalled handler
                         {| closedDisplay := D;
                            closedWindows := removedWindows;
                            closedViewObjects := removedViewObjects |})
                      (io s)
             | None => io s
             end |}
  /\ on_display_removed D s = _clean D s
  /\ onQueueDeleted ("rpc-display-" +:+ D) s = _clean D s.
Proof.
  intros Hw Hv. cbv zeta. split; [|split].
  - unfold _clean. cbv zeta.
    rewrite (JsMapFacts.delete_all_keys_where
               (fun v => String.eqb (dw_displayName v) D) _ Hw).
    cbn [viewObjects set_displayWindows displayWorkerQuitHandler set_viewObjects].
    rewrite (JsMapFacts.delete_all_keys_where
               (fun v => String.eqb (vo_displayName v) D) _ Hv).
    unfold JsMap.keys_where.
    now destruct (displayWorkerQuitHandler (this s)).
  - reflexivity.
  - unfold onQueueDeleted.
    destruct (queue_name_of_display D) as [-> ->]. reflexivity.
Qed.

Lemma _clean_removes_display_witness :
  _clean "d1" {| this := Fixture.B; io := Fixture.w0 |} =
    {| this := set_viewObjects [] (set_displayWindows [] Fixture.B);
       io := emit (QuitHandlerCalled "onQuit"
                     {| closedDisplay := "d1";
                        closedWindows := ["main"];
                        closedViewObjects := ["p1"] |})
                  Fixture.w0 |}
  /\ on_display_removed "d1" {| this := Fixture.B; io := Fixture.w0 |}
     = _clean "d1" {| this := Fixture.B; io := Fixture.w0 |}
  /\ onQueueDeleted "rpc-display-d1" {| this := Fixture.B; io := Fixture.w0 |}
     = _clean "d1" {| this := Fixture.B; io := Fixture.w0 |}.
Proof.
  apply (_clean_removes_display "d1" {| this := Fixture.B; io := Fixture.w0 |}).
  - repeat constructor. simpl. tauto.
  - repeat constructor. simpl. tauto.
Defined.

(* ===================================================================== *)
(** * [createViewObject] on a window the context does not hold *)
(* ===================================================================== *)

(** C8 on the code. When the context holds no window [windowName] and
    [getWindowBounds] resolves with [bounds]: if [windowName] is no key of
    [bounds], [createViewObject] rejects with the error that the window
    name is not defined; if it is a key, [initialize] is started and the
    promise [createViewObject] returns never settles, whatever the fuel.
    In both cases creating the pane is not tried again: the pane map is
    what it was and no [create-viewobj] request is sent. *)
Theorem createViewObject_unknown_window
  (fuel : nat) (options : viewobject_options) (windowName : string) (s : Obj)
  (bounds : list (string * WindowSettings)) (s1 : Obj) :
  JsMap.get windowName (displayWindows (this s)) = None ->
  getWindowBounds s = (Resolved bounds, s1) ->
  exists s',
    createViewObject (S fuel) options windowName s =
      Some (if existsb (String.eqb windowName) (JsMap.keys bounds)
            then Pending
            else Rejected (WindowNameNotDefined windowName),
            s')
    /\ viewObjects (this s') = viewObjects (this s)
    /\ exists es, trace (io s') = trace (io s) ++ es /\ Forall other_request es.
Proof.
  intros Hget Hb.
  pose proof (getWindowBounds_frame s) as F. pose proof (getWindowBounds_trace s) as [es1 [T1 N1]].
  rewrite Hb in F, T1. cbv zeta in F. simpl snd in F, T1. destruct F as [Fn [_ [Fv _]]].
  unfold createViewObject. fold createViewObject. rewrite Hget.
  unfold bind. rewrite Hb. rewrite check_bounds_spec. cbn [fst snd this io].
  destruct (existsb (String.eqb windowName) (JsMap.keys bounds)).
  - set (s2 := {| this := set_window_settings _ (this s1); io := io s1 |}).
    destruct (initialize JavaScript (List.map _ bounds) s2) as [oi si] eqn:Ei.
    pose proof (initialize_frame _ _ _ _ _ Ei) as [_ [Iv _]].
    pose proof (initialize_trace JavaScript
                  (List.map (fun e => (fst e, ws_fill (name (this s1)) (fst e) (snd e))) bounds)
                  s2) as [es2 [T2 N2]].
    rewrite Ei in T2. simpl in T2.
    exists si. simpl. split; [reflexivity|]. split; [now rewrite Iv|].
    exists (es1 ++ es2). split.
    + now rewrite T2, T1, app_assoc.
    + apply Forall_app. now split.
  - eexists. simpl. split; [reflexivity|]. split; [exact Fv|].
    exists es1. now split.
Qed.

Lemma createViewObject_unknown_window_witness :
  exists s',
    createViewObject 1 Fixture.page "main" {| this := Fixture.alpha; io := Fixture.w_main |}
      = Some (Pending, s')
    /\ viewObjects (this s') = []
    /\ exists es, trace (io s') = [] ++ es /\ Forall other_request es.
Proof.
  apply (createViewObject_unknown_window 0 Fixture.page "main"
           {| this := Fixture.alpha; io := Fixture.w_main |}
           [("main", ws_set_names "main" (Fixture.settings (Some "main")))]
           {| this := Fixture.alpha; io := Fixture.w_main |}).
  - reflexivity.
  - reflexivity.
Defined.

(** What [createViewObject] does at that input, step by step: the
    context is shown, the window is created and stored, and the promise
    stays pending with no pane created, for any fuel. *)
Lemma createViewObject_hangs (fuel : nat) :
  let r := createViewObject (S fuel) Fixture.page "main"
             {| this := Fixture.alpha; io := Fixture.w_main |} in
  option_map fst r = Some Pending
  /\ option_map (fun p => JsMap.keys (displayWindows (this (snd p)))) r = Some ["main"]
  /\ option_map (fun p => viewObjects (this (snd p))) r = Some []
  /\ option_map (fun p => trace (io (snd p))) r
     = Some [Rpc "rpc-display-main" (set_display_context "alpha");
             Rpc "rpc-display-main"
               (create_window
                  (ws_set_template (ws_fill "alpha" "main"
                     (ws_set_names "main" (Fixture.settings (Some "main"))))))].
Proof.
  repeat split; vm_compute; reflexivity.
Qed.

(* ===================================================================== *)
(** * The factory: [getActive] and [hideAll] *)
(* ===================================================================== *)



(** C10. When [getDisplays] resolves with the map [m] and every display
    of [m] answers [hide-all-windows], [hideAll] resolves with the
    replies, one per display, and the key of the active context is gone
    from the store, whatever it held: the store is the one [hideAll]
    found, with that key deleted.  The requests sent are those of
    [getDisplays], then one [hide-all-windows] per display of [m]. *)
Theorem hideAll_deletes_active (w : World) (m : JsMap.t (Z * Z * Z * Z)) (w1 : World)
  (rs : list display_rpc_result) (w2 : World) :
  DisplayContextFactory.getDisplays w = (Resolved m, w1) ->
  Promise_all
    (List.map (fun k => (Mq.call ("rpc-display-" +:+ k) hide_all_windows
                         : M World display_rpc_result))
              (JsMap.keys m)) w1 = (Resolved rs, w2) ->
  exists w',
    DisplayContextFactory.hideAll w = (Resolved rs, w')
    /\ store w' = base.delete Store.activeDisplayContext (store w)
    /\ store w' !! Store.activeDisplayContext = None
    /\ List.length rs = List.length (JsMap.keys m)
    /\ trace w' =
         trace w
         ++ List.map (fun dm => Rpc dm get_display_bounds) (availableDisplayNames (queues w))
         ++ List.map (fun k => Rpc ("rpc-display-" +:+ k) hide_all_windows) (JsMap.keys m).
Proof.
  intros Hd Hp.
  pose proof (getDisplays_snd w) as H1. rewrite Hd in H1. simpl in H1. subst w1.
  pose proof (Promise_all_map_emits
                (fun k => (Mq.call ("rpc-display-" +:+ k) hide_all_windows
                           : M World display_rpc_result))
                (fun k => Rpc ("rpc-display-" +:+ k) hide_all_windows)
                (JsMap.keys m) (fun x w => eq_refl)
                (emits (List.map (fun dm => Rpc dm get_display_bounds)
                                 (availableDisplayNames (queues w))) w)) as H2.
  rewrite Hp in H2. simpl in H2. subst w2.
  unfold DisplayContextFactory.hideAll, bind. rewrite Hd. rewrite Hp.
  eexists. split; [reflexivity|]. simpl.
  split; [reflexivity|]. split; [apply lookup_delete_eq|].
  split; [|now rewrite app_assoc].
  apply Promise_all_length in Hp. now rewrite length_map in Hp.
Qed.

Lemma hideAll_deletes_active_witness :
  exists w',
    DisplayContextFactory.hideAll Fixture.w0
      = (Resolved [Fixture.result "hide-all-windows" "d1"], w')
    /\ store w' = base.delete Store.activeDisplayContext (store Fixture.w0)
    /\ store w' !! Store.activeDisplayContext = None
    /\ List.length [Fixture.result "hide-all-windows" "d1"] = 1
    /\ trace w' = [Rpc "rpc-display-d1" get_display_bounds;
                   Rpc "rpc-display-d1" hide_all_windows].
Proof.
  apply (hideAll_deletes_active Fixture.w0 [("d1", (0, 0, 1920, 1080)%Z)]
           (emits [Rpc "rpc-display-d1" get_display_bounds] Fixture.w0)
           [Fixture.result "hide-all-windows" "d1"]
           (emits [Rpc "rpc-display-d1" get_display_bounds;
                   Rpc "rpc-display-d1" hide_all_windows] Fixture.w0)).
  - reflexivity.
  - reflexivity.
Defined.
(* ===================================================================== *)
(** * Further properties: the fan-out *)
(* ===================================================================== *)

Lemma Promise_all_calls_rejected (cmd : Command) (before after : list string) (q : string)
  (w : World) :
  (forall dm, In dm before -> workers w dm cmd <> None) ->
  workers w q cmd = None ->
  fst (Promise_all (List.map (fun dm => Mq.call dm cmd) (before ++ q :: after)) w)
  = Rejected (CallFailed q cmd).
Proof.
  revert w. induction before as [|b before IH]; intros w Hb Hq; simpl.
  - destruct (Promise_all _ (emit (Rpc q cmd) w)) as [os w2]. simpl. now rewrite Hq.
  - specialize (IH (emit (Rpc b cmd) w)
                  (fun dm Hin => Hb dm (or_intror Hin)) Hq).
    destruct (Promise_all _ (emit (Rpc b cmd) w)) as [os w2]. simpl in *. subst os.
    destruct (workers w b cmd) eqn:E; [reflexivity|].
    now destruct (Hb b (or_introl eq_refl)).
Qed.

(** X1. When the fan-out of a request resolves, it resolves with one
    reply for every running or live display-worker queue of the listing,
    in the order of the listing, each reply being the answer of the worker
    behind that queue; one request went to each of these queues and
    nothing else in the world changed. *)
Theorem executeInAvailableDisplays_replies (cmd : Command) (w : World)
  (rs : list (Reply cmd)) (w' : World) :
  _executeInAvailableDisplays cmd w = (Resolved rs, w') ->
  Forall2 (fun dm r => workers w dm cmd = Some r) (availableDisplayNames (queues w)) rs
  /\ w' = emits (List.map (fun dm => Rpc dm cmd) (availableDisplayNames (queues w))) w.
Proof.
  intros H. split.
  - revert H. unfold _executeInAvailableDisplays.
    destruct (Nat.ltb 0 _); [apply Promise_all_calls_resolved | discriminate].
  - pose proof (_executeInAvailableDisplays_snd cmd w) as Hw.
    rewrite H in Hw. exact Hw.
Qed.

Lemma executeInAvailableDisplays_replies_witness :
  Forall2 (fun dm r => workers Fixture.w0 dm (set_display_context "B") = Some r)
          ["rpc-display-d1"] [Fixture.result "set-display-context" "d1"]
  /\ emits [Rpc "rpc-display-d1" (set_display_context "B")] Fixture.w0
     = emits [Rpc "rpc-display-d1" (set_display_context "B")] Fixture.w0.
Proof.
  apply (executeInAvailableDisplays_replies (set_display_context "B") Fixture.w0
           [Fixture.result "set-display-context" "d1"]
           (emits [Rpc "rpc-display-d1" (set_display_context "B")] Fixture.w0)).
  reflexivity.
Defined.

Lemma first_unanswered (cmd : Command) (w : World) (qs : list string) (q : string) :
  In q qs -> workers w q cmd = None ->
  exists before q' after,
    qs = before ++ q' :: after
    /\ (forall dm, In dm before -> workers w dm cmd <> None)
    /\ workers w q' cmd = None.
Proof.
  induction qs as [|q0 qs IH]; intros Hin Hq; [destruct Hin|].
  destruct (workers w q0 cmd) as [r|] eqn:E0.
  - destruct Hin as [->|Hin]; [congruence|].
    destruct (IH Hin Hq) as [before [q' [after [-> [Hb Hf]]]]].
    exists (q0 :: before), q', after. split; [reflexivity|]. split; [|exact Hf].
    intros dm [<-|Hd]; [congruence | now apply Hb].
  - exists [], q0, qs. split; [reflexivity|]. split; [intros dm []|exact E0].
Qed.

(** X2. One failing call fails the fan-out, and everything is sent all
    the same: when the call to one of the available queues fails, the
    fan-out does not resolve; it rejects with the failure of a call to an
    available queue that failed, and the request has still been sent to
    every available queue. *)
Theorem executeInAvailableDisplays_fails_fast (cmd : Command) (w : World) (q : string) :
  In q (availableDisplayNames (queues w)) ->
  workers w q cmd = None ->
  exists q',
    In q' (availableDisplayNames (queues w))
    /\ workers w q' cmd = None
    /\ _executeInAvailableDisplays cmd w
       = (Rejected (CallFailed q' cmd),
          emits (List.map (fun dm => Rpc dm cmd) (availableDisplayNames (queues w))) w).
Proof.
  intros Hin Hf.
  destruct (first_unanswered cmd w _ q Hin Hf) as [before [q' [after [Hq [Hb Hf']]]]].
  exists q'. split; [rewrite Hq; apply in_or_app; right; now left|]. split; [exact Hf'|].
  pose proof (_executeInAvailableDisplays_snd cmd w) as Hw. unfold sent in Hw.
  rewrite (surjective_pairing (_executeInAvailableDisplays cmd w)), Hw. f_equal.
  unfold _executeInAvailableDisplays. rewrite Hq, length_map, length_app. simpl.
  replace (Nat.ltb 0 (List.length before + S (List.length after))) with true
    by (symmetry; apply Nat.ltb_lt; lia).
  now apply Promise_all_calls_rejected.
Qed.

Lemma executeInAvailableDisplays_fails_fast_witness :
  exists q',
    In q' ["rpc-display-d1"; "rpc-display-d2"; "rpc-display-d3"]
    /\ workers Outage.world q' hide_all_windows = None
    /\ _executeInAvailableDisplays hide_all_windows Outage.world
       = (Rejected (CallFailed q' hide_all_windows),
          emits [Rpc "rpc-display-d1" hide_all_windows;
                 Rpc "rpc-display-d2" hide_all_windows;
                 Rpc "rpc-display-d3" hide_all_windows] Outage.world).
Proof.
  apply (executeInAvailableDisplays_fails_fast hide_all_windows Outage.world "rpc-display-d3").
  - simpl. auto.
  - reflexivity.
Defined.

(* ===================================================================== *)
(** * Further properties: showing, hiding, bounds *)
(* ===================================================================== *)

(** X3. [show] marks the context active only when every worker has
    answered: if it resolves, the store names this context; if it does not
    (no worker running, or a call failed), the store is what it was.
    Either way the object is untouched and only [set-display-context]
    requests were sent. *)
Theorem show_marks_active (src : Source) (s : Obj) (o : outcome Value) (s' : Obj) :
  show src s = (o, s') ->
  this s' = this s
  /\ trace (io s') = trace (io s) ++ sent (set_display_context (name (this s))) (io s)
  /\ match o with
     | Resolved _ =>
         store (io s') = <[Store.activeDisplayContext := name (this s)]> (store (io s))
     | _ => store (io s') = store (io s)
     end.
Proof.
  rewrite show_spec. cbv zeta.
  destruct (fst (_executeInAvailableDisplays _ (io s))); intros [= <- <-]; simpl; auto.
Qed.

Lemma show_marks_active_witness :
  let s := {| this := Fixture.B; io := Fixture.w0 |} in
  let s' := {| this := Fixture.B;
               io := Store.setState Store.activeDisplayContext "B"
                       (emits [Rpc "rpc-display-d1" (set_display_context "B")] Fixture.w0) |} in
  this s' = this s
  /\ trace (io s') = trace (io s) ++ sent (set_display_context "B") (io s)
  /\ store (io s') = <[Store.activeDisplayContext := "B"]> (store (io s)).
Proof.
  intros s s'.
  apply (show_marks_active JavaScript s
           (Resolved (VResults [Fixture.result "set-display-context" "d1"])) s').
  reflexivity.
Defined.

(** X4. [hide] does not touch the store: a context that [show] has marked
    active is still the one the store names after it has been hidden,
    however [hide] settles. *)
Theorem hide_keeps_active (src : Source) (s : Obj) (v : Value) (s1 : Obj)
  (o : outcome (list display_rpc_result)) (s2 : Obj) :
  show src s = (Resolved v, s1) ->
  hide s1 = (o, s2) ->
  Store.getState Store.activeDisplayContext (io s2) = Some (name (this s))
  /\ this s2 = this s.
Proof.
  intros Hs Hh.
  assert (Ht : this s1 = this s
               /\ store (io s1) = <[Store.activeDisplayContext := name (this s)]> (store (io s))).
  { revert Hs. rewrite show_spec. cbv zeta.
    destruct (fst (_executeInAvailableDisplays _ (io s))); intros [= _ <-]; now split. }
  destruct Ht as [Ht Hst].
  unfold hide, liftIO in Hh.
  pose proof (_executeInAvailableDisplays_snd (hide_display_context (name (this s1))) (io s1))
    as Hw.
  destruct (_executeInAvailableDisplays _ (io s1)) as [o1 w1]. simpl in Hw.
  injection Hh as _ <-. subst w1. simpl. split; [|exact Ht].
  unfold Store.getState. simpl. rewrite Hst. apply lookup_insert_eq.
Qed.

Lemma hide_keeps_active_witness :
  let s := {| this := Fixture.B; io := Fixture.w0 |} in
  let s1 := {| this := Fixture.B;
               io := Store.setState Store.activeDisplayContext "B"
                       (emits [Rpc "rpc-display-d1" (set_display_context "B")] Fixture.w0) |} in
  Store.getState Store.activeDisplayContext (io (snd (hide s1))) = Some "B"
  /\ this (snd (hide s1)) = Fixture.B.
Proof.
  intros s s1.
  apply (hide_keeps_active JavaScript s
           (VResults [Fixture.result "set-display-context" "d1"]) s1
           (fst (hide s1)) (snd (hide s1))).
  - reflexivity.
  - reflexivity.
Defined.

(** X5. [getWindowBounds] asks the workers at most once for bounds that
    are not empty: once it has resolved with bounds that hold a window,
    calling it again resolves with the same bounds, sends no request and
    changes nothing. *)
Theorem getWindowBounds_again (s : Obj) (bounds : list (string * WindowSettings)) (s1 : Obj) :
  getWindowBounds s = (Resolved bounds, s1) ->
  bounds <> [] ->
  getWindowBounds s1 = (Resolved bounds, s1).
Proof.
  intros H Hne.
  assert (Hs : window_settings (this s1) = Some bounds).
  { revert H. unfold getWindowBounds.
    assert (D : (bounds0 <- liftIO (_executeInAvailableDisplays
                                     (get_window_bounds (name (this s)))) ;;
                 fun s2 => (Resolved (merge_bounds bounds0),
                            {| this := set_window_settings (merge_bounds bounds0) (this s2);
                               io := io s2 |})) s = (Resolved bounds, s1) ->
                window_settings (this s1) = Some bounds).
    { unfold bind, liftIO.
      destruct (_executeInAvailableDisplays _ (io s)) as [o w1]. destruct o; try discriminate.
      now intros [= <- <-]. }
    destruct (window_settings (this s)) as [ws|] eqn:E; [|exact D].
    destruct ws as [|e ws]; simpl negb; cbv iota; [exact D|].
    now intros [= <- <-]. }
  unfold getWindowBounds. rewrite Hs.
  destruct bounds as [|e bounds]; [contradiction|]. reflexivity.
Qed.

Lemma getWindowBounds_again_witness :
  getWindowBounds {| this := Fixture.alpha; io := Fixture.w_main |}
  = (Resolved [("main", ws_set_names "main" (Fixture.settings (Some "main")))],
     {| this := Fixture.alpha; io := Fixture.w_main |}).
Proof.
  apply (getWindowBounds_again {| this := Fixture.alpha; io := Fixture.w_main |}
           [("main", ws_set_names "main" (Fixture.settings (Some "main")))]
           {| this := Fixture.alpha; io := Fixture.w_main |}).
  - reflexivity.
  - discriminate.
Defined.

Lemma merge_into_keys (b : list (string * WindowSettings)) (acc : JsMap.t WindowSettings) k :
  In k (JsMap.keys (List.fold_left (fun bm e => JsMap.set (fst e) (snd e) bm) b acc))
  <-> In k (JsMap.keys acc) \/ In k (JsMap.keys b).
Proof.
  revert acc. induction b as [|e b IH]; intros acc; simpl; [tauto|].
  rewrite IH, JsMapFacts.In_keys_set. intuition congruence.
Qed.

Lemma merge_into_get_other (b : list (string * WindowSettings)) (acc : JsMap.t WindowSettings) k :
  ~ In k (JsMap.keys b) ->
  JsMap.get k (List.fold_left (fun bm e => JsMap.set (fst e) (snd e) bm) b acc)
  = JsMap.get k acc.
Proof.
  revert acc. induction b as [|e b IH]; intros acc Hn; simpl; [reflexivity|].
  rewrite IH by (simpl in Hn; tauto).
  apply JsMapFacts.get_set_ne. simpl in Hn. intros E. apply Hn. now left.
Qed.

Lemma merge_into_get (b : list (string * WindowSettings)) (acc : JsMap.t WindowSettings) k v :
  JsMap.wf b -> In (k, v) b ->
  JsMap.get k (List.fold_left (fun bm e => JsMap.set (fst e) (snd e) bm) b acc) = Some v.
Proof.
  unfold JsMap.wf. revert acc. induction b as [|e b IH]; intros acc Hwf Hin; simpl; [destruct Hin|].
  inversion Hwf as [|? ? Hni Hwf']; subst. destruct Hin as [->|Hin].
  - simpl. rewrite merge_into_get_other by exact Hni. apply JsMapFacts.get_set_eq.
  - now apply IH.
Qed.

(** X6. The bounds merged from the workers' replies hold a window
    exactly when some reply does; and when several replies hold the same
    window, the last of them wins. *)
Theorem merge_bounds_last_wins (before after : list (list (string * WindowSettings)))
  (b : list (string * WindowSettings)) (k : string) (v : WindowSettings) :
  JsMap.wf b ->
  In (k, v) b ->
  (forall b', In b' after -> ~ In k (JsMap.keys b')) ->
  JsMap.get k (merge_bounds (before ++ b :: after)) = Some v
  /\ forall k', In k' (JsMap.keys (merge_bounds (before ++ b :: after)))
                 <-> exists b', In b' (before ++ b :: after) /\ In k' (JsMap.keys b').
Proof.
  intros Hwf Hin Hafter.
  assert (K : forall (bs : list (list (string * WindowSettings))) acc k',
             In k' (JsMap.keys
                      (List.fold_left
                         (fun boundMap b0 =>
                            List.fold_left (fun bm e => JsMap.set (fst e) (snd e) bm) b0 boundMap)
                         bs acc))
             <-> In k' (JsMap.keys acc) \/ exists b', In b' bs /\ In k' (JsMap.keys b')).
  { induction bs as [|b0 bs IH]; intros acc k'; simpl.
    - split; [tauto | intros [H|[b' [[] _]]]; exact H].
    - rewrite IH, merge_into_keys. split.
      + intros [[H|H]|[b' [H1 H2]]]; [now left | right; exists b0; tauto | right; exists b'; tauto].
      + intros [H|[b' [[<-|H1] H2]]]; [tauto | tauto | right; exists b'; tauto]. }
  split.
  - unfold merge_bounds. rewrite fold_left_app. simpl.
    generalize (List.fold_left
                  (fun boundMap b0 =>
                     List.fold_left (fun bm e => JsMap.set (fst e) (snd e) bm) b0 boundMap)
                  before []).
    intros acc.
    assert (G : forall (bs : list (list (string * WindowSettings))) acc0,
               (forall b', In b' bs -> ~ In k (JsMap.keys b')) ->
               JsMap.get k
                 (List.fold_left
                    (fun boundMap b0 =>
                       List.fold_left (fun bm e => JsMap.set (fst e) (snd e) bm) b0 boundMap)
                    bs acc0) = JsMap.get k acc0).
    { induction bs as [|b0 bs IH]; intros acc0 Hn; simpl; [reflexivity|].
      rewrite IH by (intros b' Hb'; apply Hn; now right).
      apply merge_into_get_other. apply Hn. now left. }
    rewrite G by exact Hafter. now apply merge_into_get.
  - intros k'. unfold merge_bounds. rewrite K. simpl. tauto.
Qed.

Lemma merge_bounds_last_wins_witness :
  let first := [("main", Fixture.settings (Some "d1"))] in
  let last := [("main", Fixture.settings (Some "d2"))] in
  let other := [("side", Fixture.settings None)] in
  JsMap.get "main" (merge_bounds ([first] ++ last :: [other]))
  = Some (Fixture.settings (Some "d2"))
  /\ forall k', In k' (JsMap.keys (merge_bounds ([first] ++ last :: [other])))
                <-> exists b', In b' ([first] ++ last :: [other]) /\ In k' (JsMap.keys b').
Proof.
  intros first last other.
  apply (merge_bounds_last_wins [first] [other] last "main" (Fixture.settings (Some "d2"))).
  - repeat constructor. simpl. tauto.
  - now left.
  - intros b' [<-|[]] [E|[]]. discriminate E.
Defined.

(* ===================================================================== *)
(** * Further properties: reconciliation *)
(* ===================================================================== *)

(** X7. A reconciliation whose fan-out is rejected (no worker running, or
    a call failed) rejects the same way and has not touched the object:
    the windows and panes it knew are still there, and the store is what
    it was. *)
Theorem restoreFromDisplayWorkerStates_fan_out_rejected
  (src : Source) (reset : bool) (s : Obj) (e : Error) (w1 : World) :
  _executeInAvailableDisplays (get_dw_context_windows_vbo (name (this s))) (io s)
    = (Rejected e, w1) ->
  restoreFromDisplayWorkerStates src reset s = (Rejected e, {| this := this s; io := w1 |})
  /\ store w1 = store (io s).
Proof.
  intros H. split.
  - unfold restoreFromDisplayWorkerStates, bind, liftIO. now rewrite H.
  - pose proof (_executeInAvailableDisplays_snd
                  (get_dw_context_windows_vbo (name (this s))) (io s)) as Hw.
    rewrite H in Hw. simpl in Hw. now subst w1.
Qed.

Lemma restoreFromDisplayWorkerStates_fan_out_rejected_witness :
  restoreFromDisplayWorkerStates JavaScript true {| this := Fixture.B; io := Fixture.nobody |}
  = (Rejected (NoDisplayWorkerFound (get_dw_context_windows_vbo "B")),
     {| this := Fixture.B; io := Fixture.nobody |})
  /\ store Fixture.nobody = store Fixture.nobody.
Proof.
  apply (restoreFromDisplayWorkerStates_fan_out_rejected JavaScript true
           {| this := Fixture.B; io := Fixture.nobody |}
           (NoDisplayWorkerFound (get_dw_context_windows_vbo "B")) Fixture.nobody).
  reflexivity.
Defined.

(** X8. A context no worker remembers, for which no layout was declared
    and for which the workers report no bounds, cannot be initialized:
    reconciliation rejects with ["Cannot initialize display context
    without proper window_settings"]; by then the maps of the object have
    been emptied, and the context has not been marked active. *)
Theorem restoreFromDisplayWorkerStates_cannot_initialize
  (src : Source) (reset : bool) (s : Obj) (states : list WorkerState) (w1 : World)
  (bounds : list (list (string * WindowSettings))) (w2 : World) :
  _executeInAvailableDisplays (get_dw_context_windows_vbo (name (this s))) (io s)
    = (Resolved states, w1) ->
  total_windows states = 0 ->
  window_settings (this s) = None ->
  _executeInAvailableDisplays (get_window_bounds (name (this s))) w1 = (Resolved bounds, w2) ->
  merge_bounds bounds = [] ->
  exists s',
    restoreFromDisplayWorkerStates src reset s = (Rejected CannotInitialize, s')
    /\ displayWindows (this s') = []
    /\ viewObjects (this s') = []
    /\ store (io s') = store (io s).
Proof.
  intros H H0 Hs Hb Hm.
  rewrite (restoreFromDisplayWorkerStates_unfold _ _ _ _ _ H), H0.
  change (Nat.eqb 0 0) with true. cbv iota.
  destruct (gather_no_windows (name (this s)) states H0) as [Hw Hv].
  assert (Hst : store w2 = store (io s)).
  { pose proof (_executeInAvailableDisplays_snd
                  (get_dw_context_windows_vbo (name (this s))) (io s)) as E1.
    pose proof (_executeInAvailableDisplays_snd (get_window_bounds (name (this s))) w1) as E2.
    rewrite H in E1. rewrite Hb in E2. simpl in E1, E2. rewrite E2, E1. reflexivity. }
  set (s2 := gathered s states w1).
  assert (Hs2 : window_settings (this s2) = None) by exact Hs.
  assert (Hn2 : name (this s2) = name (this s)) by reflexivity.
  assert (Hio2 : io s2 = w1) by reflexivity.
  unfold bind at 1. unfold getWindowBounds. rewrite Hs2, Hn2.
  unfold bind, liftIO. rewrite Hio2, Hb. cbn [this io]. rewrite Hm.
  cbn [initialize isEmpty].
  eexists. split; [reflexivity|]. simpl. rewrite Hw, Hv. repeat split.
  exact Hst.
Qed.

Lemma restoreFromDisplayWorkerStates_cannot_initialize_witness :
  exists s',
    restoreFromDisplayWorkerStates JavaScript false
      {| this := new_DisplayContext "ghost" []; io := Fixture.w_main |}
    = (Rejected CannotInitialize, s')
    /\ displayWindows (this s') = []
    /\ viewObjects (this s') = []
    /\ store (io s') = store Fixture.w_main.
Proof.
  apply (restoreFromDisplayWorkerStates_cannot_initialize JavaScript false
           {| this := new_DisplayContext "ghost" []; io := Fixture.w_main |}
           [Fixture.forgot]
           (emits [Rpc "rpc-display-main" (get_dw_context_windows_vbo "ghost")] Fixture.w_main)
           [[]]
           (emits [Rpc "rpc-display-main" (get_window_bounds "ghost")]
              (emits [Rpc "rpc-display-main" (get_dw_context_windows_vbo "ghost")]
                 Fixture.w_main))).
  - reflexivity.
  - reflexivity.
  - reflexivity.
  - reflexivity.
  - reflexivity.
Defined.

(** X9. When at least one window is reported, the window names of the
    reconciled context ([getDisplayWindowNamesSync]) are exactly the names
    under which the workers report windows: none is lost, none is
    invented, and what the object held before is gone. *)
Theorem restoreFromDisplayWorkerStates_window_names
  (src : Source) (reset : bool) (s : Obj) (states : list WorkerState) (w1 : World)
  (o : outcome Value) (s' : Obj) :
  _executeInAvailableDisplays (get_dw_context_windows_vbo (name (this s))) (io s)
    = (Resolved states, w1) ->
  total_windows states <> 0 ->
  restoreFromDisplayWorkerStates src reset s = (o, s') ->
  forall k, In k (getDisplayWindowNamesSync (this s')) <-> In k (reported_window_names states).
Proof.
  intros H Hn Hr k.
  rewrite (restoreFromDisplayWorkerStates_unfold _ _ _ _ _ H) in Hr.
  apply Nat.eqb_neq in Hn. rewrite Hn in Hr.
  assert (Ht : this s' = this (gathered s states w1)).
  { destruct reset.
    - now apply show_then_reloadAll_this in Hr.
    - pose proof (show_this src (gathered s states w1)) as Ht. now rewrite Hr in Ht. }
  unfold getDisplayWindowNamesSync. rewrite Ht. simpl. unfold gather.
  rewrite gather_fold_keys. simpl. tauto.
Qed.

Lemma restoreFromDisplayWorkerStates_window_names_witness :
  In "main" (getDisplayWindowNamesSync
               (this (snd (restoreFromDisplayWorkerStates JavaScript false
                             {| this := Fixture.alpha; io := Fixture.w0 |}))))
  <-> In "main" (reported_window_names [Fixture.remembers]).
Proof.
  apply (restoreFromDisplayWorkerStates_window_names JavaScript false
           {| this := Fixture.alpha; io := Fixture.w0 |}
           [Fixture.remembers]
           (emits [Rpc "rpc-display-d1" (get_dw_context_windows_vbo "alpha")] Fixture.w0)
           (fst (restoreFromDisplayWorkerStates JavaScript false
                   {| this := Fixture.alpha; io := Fixture.w0 |}))).
  - reflexivity.
  - discriminate.
  - apply surjective_pairing.
Defined.

(** X10. After a reconciliation that passed its fan-out, looking a pane
    up by id ([getViewObjectByIdSync]) gives a pane that bears that id and
    this context's name. *)
Theorem restoreFromDisplayWorkerStates_pane_ids
  (src : Source) (reset : bool) (s : Obj) (states : list WorkerState) (w1 : World)
  (o : outcome Value) (s' : Obj) :
  _executeInAvailableDisplays (get_dw_context_windows_vbo (name (this s))) (io s)
    = (Resolved states, w1) ->
  restoreFromDisplayWorkerStates src reset s = (o, s') ->
  forall id vo, getViewObjectByIdSync id (this s') = Some vo ->
                view_id vo = id /\ vo_displayContext vo = Some (name (this s')).
Proof.
  intros H Hr id vo Hget.
  destruct (restoreFromDisplayWorkerStates_object _ _ _ _ _ _ _ H Hr) as [Hn [Hv _]].
  unfold getViewObjectByIdSync in Hget. rewrite Hv in Hget.
  apply JsMapFacts.get_In in Hget. rewrite Hn. now apply gather_ids in Hget.
Qed.

Lemma restoreFromDisplayWorkerStates_pane_ids_witness :
  let s' := snd (restoreFromDisplayWorkerStates JavaScript false
                   {| this := Fixture.alpha; io := Fixture.w0 |}) in
  let vo := {| view_id := "p1"; vo_displayName := "d1"; vo_windowName := "main";
               vo_displayContext := Some "alpha" |} in
  getViewObjectByIdSync "p1" (this s') = Some vo
  /\ view_id vo = "p1" /\ vo_displayContext vo = Some (name (this s')).
Proof.
  intros s' vo. split; [reflexivity|].
  refine (restoreFromDisplayWorkerStates_pane_ids JavaScript false
           {| this := Fixture.alpha; io := Fixture.w0 |}
           [Fixture.remembers]
           (emits [Rpc "rpc-display-d1" (get_dw_context_windows_vbo "alpha")] Fixture.w0)
           (fst (restoreFromDisplayWorkerStates JavaScript false
                   {| this := Fixture.alpha; io := Fixture.w0 |}))
           s' _ _ "p1" vo _).
  - reflexivity.
  - apply surjective_pairing.
  - reflexivity.
Defined.

(* ===================================================================== *)
(** * Further properties: panes and their windows *)
(* ===================================================================== *)

Lemma NoDup_app_disjoint {A} (l1 l2 : list A) :
  List.NoDup (l1 ++ l2) -> forall x, In x l1 -> ~ In x l2.
Proof.
  induction l1 as [|a l1 IH]; simpl; [tauto|].
  intros Hnd x [<-|Hin] Hx.
  - inversion Hnd as [|? ? Hni _]; subst. apply Hni, in_or_app. now right.
  - inversion Hnd as [|? ? _ Hnd']; subst. exact (IH Hnd' x Hin Hx).
Qed.

Lemma gather_windows_on_windows ws g :
  List.NoDup (JsMap.keys ws) ->
  (forall k, In k (JsMap.keys ws) -> ~ In k (JsMap.keys (g_displayWindows g))) ->
  (forall k opts, In (k, opts) ws -> dwo_windowName opts = k) ->
  gathered_on_windows g -> gathered_on_windows (gather_windows ws g).
Proof.
  unfold gather_windows. revert g.
  induction ws as [|[k0 o0] ws IH]; intros g Hnd Hfresh Hkey Hg; simpl; [exact Hg|].
  inversion Hnd as [|? ? Hni Hnd']; subst.
  assert (Hk0 : JsMap.get k0 (g_displayWindows g) = None).
  { apply JsMapFacts.get_None. apply Hfresh. now left. }
  apply IH.
  - exact Hnd'.
  - intros k Hk. simpl. rewrite JsMapFacts.In_keys_set. intros [->|Hin].
    + exact (Hni Hk).
    + apply (Hfresh k); [now right | exact Hin].
  - intros k opts Hin. apply Hkey. now right.
  - destruct Hg as [Hw Hp]. split; simpl.
    + intros k wn Hin. apply In_set in Hin as [[-> ->]|Hin]; [|now apply Hw].
      simpl. apply Hkey. now left.
    + intros k vo Hin. destruct (Hp k vo Hin) as [wn [Hget Hd]].
      exists wn. split; [|exact Hd].
      rewrite JsMapFacts.get_set_ne; [exact Hget|].
      intros E. rewrite <- E, Hk0 in Hget. discriminate.
Qed.

Lemma gather_viewObjects_on_windows n vos g :
  gathered_on_windows g -> gathered_on_windows (gather_viewObjects n vos g).
Proof.
  unfold gather_viewObjects. revert g.
  induction vos as [|e vos IH]; intros g Hg; simpl; [exact Hg|].
  apply IH. destruct (JsMap.get (snd e) (g_displayWindows g)) as [wn|] eqn:Hget; [|exact Hg].
  destruct Hg as [Hw Hp]. split; simpl; [exact Hw|].
  intros k vo Hin. apply In_set in Hin as [[-> ->]|Hin]; [|exact (Hp k vo Hin)].
  simpl. exists wn. split; [|reflexivity].
  pose proof (JsMapFacts.get_In _ _ _ Hget) as Hin'. now rewrite (Hw _ _ Hin').
Qed.

Lemma gather_on_windows n states :
  Forall keyed_by_name states ->
  List.NoDup (reported_window_names states) ->
  gathered_on_windows (gather n states).
Proof.
  unfold gather.
  assert (G : forall g,
             Forall keyed_by_name states ->
             List.NoDup (reported_window_names states) ->
             (forall k, In k (reported_window_names states) ->
                        ~ In k (JsMap.keys (g_displayWindows g))) ->
             gathered_on_windows g ->
             gathered_on_windows (List.fold_left (gather_state n) states g)).
  { induction states as [|state states IH]; intros g HF Hnd Hfresh Hg; simpl; [exact Hg|].
    inversion HF as [|? ? Hk HF']; subst.
    unfold reported_window_names in Hnd, Hfresh. simpl in Hnd, Hfresh.
    fold (reported_window_names states) in Hnd, Hfresh.
    apply IH.
    - exact HF'.
    - now apply List.NoDup_app_remove_l in Hnd.
    - intros k Hk' Hin. unfold gather_state in Hin.
      assert (Hin' : In k (JsMap.keys
                             (g_displayWindows
                                match st_windows state with
                                | Some ws => gather_windows ws g
                                | None => g
                                end))).
      { destruct (st_viewObjects state);
          [now rewrite gather_viewObjects_displayWindows in Hin | exact Hin]. }
      destruct (st_windows state) as [ws|].
      + apply gather_windows_keys in Hin' as [Hin'|Hin'].
        * apply (Hfresh k); [apply in_or_app; now right | exact Hin'].
        * exact (NoDup_app_disjoint _ _ Hnd k Hin' Hk').
      + apply (Hfresh k); [exact Hk' | exact Hin'].
    - unfold gather_state.
      assert (H1 : gathered_on_windows
                     match st_windows state with
                     | Some ws => gather_windows ws g
                     | None => g
                     end).
      { destruct (st_windows state) as [ws|] eqn:E; [|exact Hg].
        apply gather_windows_on_windows.
        - now apply List.NoDup_app_remove_r in Hnd.
        - intros k Hk'. apply Hfresh, in_or_app. now left.
        - intros k opts Hin. eapply Hk; eauto.
        - exact Hg. }
      destruct (st_viewObjects state); [now apply gather_viewObjects_on_windows | exact H1]. }
  intros HF Hnd. apply G; try assumption.
  - intros k _ [].
  - split; intros ? ? [].
Qed.

(** X11. When every worker reports each of its windows under the window's
    own name and no window name is reported twice, a reconciliation that
    resolves leaves every pane in a window of the map that is on the same
    display as the pane. *)
Theorem restoreFromDisplayWorkerStates_panes_on_windows
  (src : Source) (reset : bool) (s : Obj) (states : list WorkerState) (w1 : World)
  (v : Value) (s' : Obj) :
  _executeInAvailableDisplays (get_dw_context_windows_vbo (name (this s))) (io s)
    = (Resolved states, w1) ->
  Forall keyed_by_name states ->
  List.NoDup (reported_window_names states) ->
  restoreFromDisplayWorkerStates src reset s = (Resolved v, s') ->
  panes_on_windows (this s').
Proof.
  intros H HF Hnd Hr.
  pose proof (gather_on_windows (name (this s)) states HF Hnd) as [_ Hp].
  destruct (Nat.eqb (total_windows states) 0) eqn:E.
  - destruct (restoreFromDisplayWorkerStates_object _ _ _ _ _ _ _ H Hr) as [_ [Hv _]].
    intros k vo Hin. rewrite Hv in Hin. destruct (Hp k vo Hin) as [wn [Hget _]].
    exfalso. apply Nat.eqb_eq in E.
    assert (K : In (vo_windowName vo) (reported_window_names states)).
    { apply JsMapFacts.get_In in Hget.
      apply (in_map fst) in Hget. simpl in Hget. unfold gather in Hget.
      apply (gather_fold_keys (name (this s)) states) in Hget as [[]|K]. exact K. }
    clear -E K. unfold total_windows, reported_window_names in *.
    induction states as [|st states IH]; simpl in *; [exact K|].
    apply in_app_or in K as [K|K].
    + destruct (st_windows st) as [ws|]; [|exact K].
      destruct ws; [exact K | simpl in E; lia].
    + apply IH; [lia | exact K].
  - rewrite (restoreFromDisplayWorkerStates_unfold _ _ _ _ _ H), E in Hr.
    assert (Ht : this s' = this (gathered s states w1)).
    { destruct reset.
      - now apply show_then_reloadAll_this in Hr.
      - pose proof (show_this src (gathered s states w1)) as Ht. now rewrite Hr in Ht. }
    rewrite Ht. exact Hp.
Qed.

Lemma restoreFromDisplayWorkerStates_panes_on_windows_witness :
  panes_on_windows
    (this (snd (restoreFromDisplayWorkerStates JavaScript false
                  {| this := Fixture.alpha; io := Fixture.w0 |}))).
Proof.
  apply (restoreFromDisplayWorkerStates_panes_on_windows JavaScript false
           {| this := Fixture.alpha; io := Fixture.w0 |}
           [Fixture.remembers]
           (emits [Rpc "rpc-display-d1" (get_dw_context_windows_vbo "alpha")] Fixture.w0)
           (VResults [Fixture.result "set-display-context" "d1"])).
  - reflexivity.
  - repeat constructor. intros ws k opts [= <-] [[= <- <-]|[]]. reflexivity.
  - repeat constructor. simpl. tauto.
  - reflexivity.
Defined.

(** X12. Cleaning up after a worker never leaves a pane without its
    window: if every pane stands in a window of the map that is on the
    pane's display, the same holds after [_clean], for any display;
    hence every pane still names a window of the map. *)
Theorem _clean_keeps_panes_on_windows (D : string) (s : Obj) :
  JsMap.wf (displayWindows (this s)) ->
  JsMap.wf (viewObjects (this s)) ->
  panes_on_windows (this s) ->
  panes_on_windows (this (_clean D s)) /\ no_dangling (this (_clean D s)).
Proof.
  intros Hw Hv Hp.
  assert (P : panes_on_windows (this (_clean D s))).
  { unfold _clean. cbv zeta.
    rewrite (JsMapFacts.delete_all_keys_where
               (fun v => String.eqb (dw_displayName v) D) _ Hw).
    cbn [viewObjects set_displayWindows displayWorkerQuitHandler set_viewObjects].
    rewrite (JsMapFacts.delete_all_keys_where
               (fun v => String.eqb (vo_displayName v) D) _ Hv).
    assert (Q : panes_on_windows
                  (set_viewObjects
                     (List.filter (fun e => negb (String.eqb (vo_displayName (snd e)) D))
                                  (viewObjects (this s)))
                     (set_displayWindows
                        (List.filter (fun e => negb (String.eqb (dw_displayName (snd e)) D))
                                     (displayWindows (this s)))
                        (this s)))).
    { intros k vo Hin. simpl in Hin. apply filter_In in Hin as [Hin Hd]. simpl in Hd.
      destruct (Hp k vo Hin) as [wn [Hget Hdn]]. exists wn. split; [|exact Hdn].
      simpl. apply JsMapFacts.In_get; [now apply JsMapFacts.wf_filter|].
      apply filter_In. split; [now apply JsMapFacts.get_In|].
      simpl. now rewrite Hdn. }
    now destruct (displayWorkerQuitHandler (this s)). }
  split; [exact P|].
  intros k vo Hin. destruct (P k vo Hin) as [wn [Hget _]].
  unfold JsMap.has. now rewrite Hget.
Qed.

Lemma _clean_keeps_panes_on_windows_witness :
  panes_on_windows (this (_clean "d1" {| this := Fixture.B; io := Fixture.w0 |}))
  /\ no_dangling (this (_clean "d1" {| this := Fixture.B; io := Fixture.w0 |})).
Proof.
  apply (_clean_keeps_panes_on_windows "d1" {| this := Fixture.B; io := Fixture.w0 |}).
  - repeat constructor. simpl. tauto.
  - repeat constructor. simpl. tauto.
  - intros k vo [[= <- <-]|[]]. eexists. split; reflexivity.
Defined.

(* ===================================================================== *)
(** * Further properties: cleaning up, closing, creating a pane *)
(* ===================================================================== *)

Lemma keys_where_none {V} (p : V -> bool) (m : JsMap.t V) :
  (forall k v, In (k, v) m -> p v = false) -> JsMap.keys_where p m = [].
Proof.
  unfold JsMap.keys_where. induction m as [|[k v] m IH]; intros H; simpl; [reflexivity|].
  rewrite (H k v (or_introl eq_refl)). apply IH. intros k' v' Hin. apply (H k' v'). now right.
Qed.

(** X13. [_clean] for a display that holds no window and no pane of the
    context removes nothing, and still calls the quit handler, when one is
    registered, with that display and two empty lists. *)
Theorem _clean_unrelated_display (D : string) (s : Obj) :
  (forall k wn, In (k, wn) (displayWindows (this s)) -> dw_displayName wn <> D) ->
  (forall k vo, In (k, vo) (viewObjects (this s)) -> vo_displayName vo <> D) ->
  _clean D s =
    {| this := this s;
       io := match displayWorkerQuitHandler (this s) with
             | Some handler =>
                 emit (QuitHandlerCalled handler
                         {| closedDisplay := D; closedWindows := [];
                            closedViewObjects := [] |})
                      (io s)
             | None => io s
             end |}.
Proof.
  intros Hw Hv. unfold _clean. cbv zeta.
  rewrite (keys_where_none (fun v => String.eqb (dw_displayName v) D)).
  2:{ intros k wn Hin. apply String.eqb_neq. exact (Hw k wn Hin). }
  cbn [JsMap.delete_all fold_left viewObjects set_displayWindows].
  rewrite (keys_where_none (fun v => String.eqb (vo_displayName v) D)).
  2:{ intros k vo Hin. apply String.eqb_neq. exact (Hv k vo Hin). }
  cbn [JsMap.delete_all fold_left displayWorkerQuitHandler set_viewObjects].
  destruct s as [[n dw vo ws h] w]. simpl. now destruct h.
Qed.

Lemma _clean_unrelated_display_witness :
  _clean "d9" {| this := Fixture.B; io := Fixture.w0 |} =
    {| this := Fixture.B;
       io := emit (QuitHandlerCalled "onQuit"
                     {| closedDisplay := "d9"; closedWindows := [];
                        closedViewObjects := [] |})
                  Fixture.w0 |}.
Proof.
  apply (_clean_unrelated_display "d9" {| this := Fixture.B; io := Fixture.w0 |}).
  - intros k wn [[= <- <-]|[]]. discriminate.
  - intros k vo [[= <- <-]|[]]. discriminate.
Defined.

(** X14. [_clean] is idempotent on the object: cleaning up after the same
    display a second time removes nothing more, and the quit handler is
    then called with two empty lists. *)
Theorem _clean_twice (D : string) (s : Obj) :
  JsMap.wf (displayWindows (this s)) ->
  JsMap.wf (viewObjects (this s)) ->
  this (_clean D (_clean D s)) = this (_clean D s)
  /\ io (_clean D (_clean D s)) =
       match displayWorkerQuitHandler (this s) with
       | Some handler =>
           emit (QuitHandlerCalled handler
                   {| closedDisplay := D; closedWindows := []; closedViewObjects := [] |})
                (io (_clean D s))
       | None => io (_clean D s)
       end.
Proof.
  intros Hw Hv.
  assert (E : this (_clean D s) =
              set_viewObjects
                (List.filter (fun e => negb (String.eqb (vo_displayName (snd e)) D))
                             (viewObjects (this s)))
                (set_displayWindows
                   (List.filter (fun e => negb (String.eqb (dw_displayName (snd e)) D))
                                (displayWindows (this s)))
                   (this s))).
  { unfold _clean. cbv zeta.
    rewrite (JsMapFacts.delete_all_keys_where
               (fun v => String.eqb (dw_displayName v) D) _ Hw).
    cbn [viewObjects set_displayWindows displayWorkerQuitHandler set_viewObjects].
    rewrite (JsMapFacts.delete_all_keys_where
               (fun v => String.eqb (vo_displayName v) D) _ Hv).
    now destruct (displayWorkerQuitHandler (this s)). }
  set (s1 := _clean D s) in *. clearbody s1.
  assert (Kw : JsMap.keys_where (fun v => String.eqb (dw_displayName v) D)
                 (displayWindows (this s1)) = []).
  { apply keys_where_none. intros k wn Hin. rewrite E in Hin. simpl in Hin.
    apply filter_In in Hin as [_ Hd]. simpl in Hd. now destruct (String.eqb _ D). }
  assert (Kv : JsMap.keys_where (fun v => String.eqb (vo_displayName v) D)
                 (viewObjects (this s1)) = []).
  { apply keys_where_none. intros k vo Hin. rewrite E in Hin. simpl in Hin.
    apply filter_In in Hin as [_ Hd]. simpl in Hd. now destruct (String.eqb _ D). }
  assert (Hh : displayWorkerQuitHandler (this s1) = displayWorkerQuitHandler (this s))
    by (now rewrite E).
  unfold _clean. cbv zeta. rewrite Kw.
  cbn [JsMap.delete_all fold_left viewObjects set_displayWindows]. rewrite Kv.
  cbn [JsMap.delete_all fold_left displayWorkerQuitHandler set_viewObjects].
  rewrite <- Hh. destruct s1 as [[n dw vo ws h] w]. simpl. now destruct h.
Qed.

Lemma _clean_twice_witness :
  let s := {| this := Fixture.B; io := Fixture.w0 |} in
  this (_clean "d1" (_clean "d1" s)) = this (_clean "d1" s)
  /\ io (_clean "d1" (_clean "d1" s)) =
       emit (QuitHandlerCalled "onQuit"
               {| closedDisplay := "d1"; closedWindows := []; closedViewObjects := [] |})
            (io (_clean "d1" s)).
Proof.
  intros s. apply (_clean_twice "d1" s).
  - repeat constructor. simpl. tauto.
  - repeat constructor. simpl. tauto.
Defined.

(** X15. When the fan-out of [close-display-context] is rejected (no
    worker running, or a call failed), [close] rejects the same way and
    closes nothing on its side: the maps of the object and the store are
    what they were, and no topic is published. *)
Theorem close_fan_out_rejected (s : Obj) (e : Error) (w1 : World) :
  _executeInAvailableDisplays (close_display_context (name (this s))) (io s)
    = (Rejected e, w1) ->
  close s = (Rejected e, {| this := this s; io := w1 |})
  /\ store w1 = store (io s)
  /\ trace w1 = trace (io s) ++ sent (close_display_context (name (this s))) (io s).
Proof.
  intros H.
  pose proof (_executeInAvailableDisplays_snd
                (close_display_context (name (this s))) (io s)) as Hw.
  rewrite H in Hw. simpl in Hw. subst w1.
  split; [|now split].
  unfold close, bind, liftIO. now rewrite H.
Qed.

Lemma close_fan_out_rejected_witness :
  close {| this := Fixture.B; io := Outage.world |}
  = (Rejected (CallFailed "rpc-display-d2" (close_display_context "B")),
     {| this := Fixture.B;
        io := emits [Rpc "rpc-display-d1" (close_display_context "B");
                     Rpc "rpc-display-d2" (close_display_context "B");
                     Rpc "rpc-display-d3" (close_display_context "B")] Outage.world |})
  /\ store (emits [Rpc "rpc-display-d1" (close_display_context "B");
                   Rpc "rpc-display-d2" (close_display_context "B");
                   Rpc "rpc-display-d3" (close_display_context "B")] Outage.world)
     = store Outage.world
  /\ trace (emits [Rpc "rpc-display-d1" (close_display_context "B");
                   Rpc "rpc-display-d2" (close_display_context "B");
                   Rpc "rpc-display-d3" (close_display_context "B")] Outage.world)
     = trace Outage.world ++ sent (close_display_context "B") Outage.world.
Proof.
  apply (close_fan_out_rejected {| this := Fixture.B; io := Outage.world |}
           (CallFailed "rpc-display-d2" (close_display_context "B"))).
  reflexivity.
Defined.

(** X16. Creating a pane in a window the context holds: one
    [create-viewobj] request goes to the display of the window, carrying
    the window's name and display; when the worker answers with the pane,
    the pane is registered under its id, so that looking it up by that id
    gives it back, the other panes and the windows are kept, and the
    promise resolves with the pane; when the call fails, the promise
    rejects and the pane map is what it was. *)
Theorem createViewObject_known_window
  (fuel : nat) (options : viewobject_options) (windowName : string) (s : Obj)
  (w : DisplayWindow) :
  getDisplayWindowSync windowName (this s) = Some w ->
  let queue := "rpc-display-" +:+ dw_displayName w in
  let cmd := create_viewobj {| voo_url := voo_url options;
                               voo_displayContext := dw_displayContext w;
                               voo_windowName := Some (dw_windowName w);
                               voo_displayName := Some (dw_displayName w) |} in
  exists o s',
    createViewObject (S fuel) options windowName s = Some (o, s')
    /\ io s' = emit (Rpc queue cmd) (io s)
    /\ displayWindows (this s') = displayWindows (this s)
    /\ match workers (io s) queue cmd with
       | Some vo =>
           o = Resolved vo
           /\ getViewObjectByIdSync (view_id vo) (this s') = Some vo
           /\ forall id, id <> view_id vo ->
                getViewObjectByIdSync id (this s') = getViewObjectByIdSync id (this s)
       | None =>
           o = Rejected (CallFailed queue cmd)
           /\ viewObjects (this s') = viewObjects (this s)
       end.
Proof.
  intros Hget queue cmd. unfold getDisplayWindowSync in Hget.
  unfold createViewObject. rewrite Hget.
  unfold bind, liftIO, DisplayWindow_createViewObject, Mq.call. cbn [this io voo_url].
  fold queue. fold cmd.
  destruct (workers (io s) queue cmd) as [vo|]; do 2 eexists;
    (split; [reflexivity|]); cbn [this io]; (split; [reflexivity|]);
    (split; [reflexivity|]).
  - split; [reflexivity|]. unfold getViewObjectByIdSync. simpl. split.
    + apply JsMapFacts.get_set_eq.
    + intros id Hne. apply JsMapFacts.get_set_ne. congruence.
  - split; reflexivity.
Qed.

Lemma createViewObject_known_window_witness :
  let s := {| this := Fixture.B; io := Fixture.w0 |} in
  let w := new_DisplayWindow (Fixture.window "main" "d1") in
  let queue := "rpc-display-" +:+ dw_displayName w in
  let cmd := create_viewobj {| voo_url := voo_url Fixture.page;
                               voo_displayContext := dw_displayContext w;
                               voo_windowName := Some (dw_windowName w);
                               voo_displayName := Some (dw_displayName w) |} in
  exists o s',
    createViewObject 1 Fixture.page "main" s = Some (o, s')
    /\ io s' = emit (Rpc queue cmd) (io s)
    /\ displayWindows (this s') = displayWindows (this s)
    /\ match workers (io s) queue cmd with
       | Some vo =>
           o = Resolved vo
           /\ getViewObjectByIdSync (view_id vo) (this s') = Some vo
           /\ forall id, id <> view_id vo ->
                getViewObjectByIdSync id (this s') = getViewObjectByIdSync id (this s)
       | None =>
           o = Rejected (CallFailed queue cmd)
           /\ viewObjects (this s') = viewObjects (this s)
       end.
Proof.
  intros s w.
  apply (createViewObject_known_window 0 Fixture.page "main" s w).
  reflexivity.
Defined.

(* ===================================================================== *)
(** * Further properties: the factory *)
(* ===================================================================== *)

(** X17. [hideAll] with no display worker running does not fail, unlike
    the fan-out of a context: it resolves with an empty list of replies,
    sends nothing, and deletes the key of the active context all the
    same. *)
Theorem hideAll_no_workers (w : World) :
  availableDisplayNames (queues w) = [] ->
  DisplayContextFactory.getDisplays w = (Resolved [], w)
  /\ DisplayContextFactory.hideAll w = (Resolved [], Store.del Store.activeDisplayContext w).
Proof.
  intros H.
  assert (G : DisplayContextFactory.getDisplays w = (Resolved [], w)).
  { unfold DisplayContextFactory.getDisplays, bind, ret. now rewrite H. }
  split; [exact G|].
  unfold DisplayContextFactory.hideAll, bind. now rewrite G.
Qed.

Lemma hideAll_no_workers_witness :
  DisplayContextFactory.getDisplays Fixture.nobody = (Resolved [], Fixture.nobody)
  /\ DisplayContextFactory.hideAll Fixture.nobody
     = (Resolved [], Store.del Store.activeDisplayContext Fixture.nobody).
Proof.
  apply (hideAll_no_workers Fixture.nobody). reflexivity.
Defined.

Lemma boundMap_In (bounds : list DisplayBounds) (acc : JsMap.t (Z * Z * Z * Z)) k b :
  In (k, b)
     (List.fold_left
        (fun boundMap bound => JsMap.set (db_displayName bound) (db_bounds bound) boundMap)
        bounds acc) ->
  In (k, b) acc \/ exists r, In r bounds /\ db_displayName r = k /\ db_bounds r = b.
Proof.
  revert acc. induction bounds as [|r bounds IH]; intros acc H; simpl in *; [now left|].
  apply IH in H as [H|[r' [H1 H2]]].
  - apply In_set in H as [[-> ->]|H]; [|now left].
    right. exists r. split; [now left | now split].
  - right. exists r'. split; [now right | exact H2].
Qed.

Lemma boundMap_has (bounds : list DisplayBounds) (acc : JsMap.t (Z * Z * Z * Z)) k :
  JsMap.has k acc = true \/ (exists r, In r bounds /\ db_displayName r = k) ->
  JsMap.has k
    (List.fold_left
       (fun boundMap bound => JsMap.set (db_displayName bound) (db_bounds bound) boundMap)
       bounds acc) = true.
Proof.
  revert acc. induction bounds as [|r bounds IH]; intros acc H; simpl.
  - destruct H as [H|[r [[] _]]]. exact H.
  - apply IH. destruct H as [H|[r' [[<-|H1] H2]]].
    + left. now apply has_set_mono.
    + left. subst k. apply JsMapFacts.has_keys, JsMapFacts.In_keys_set. now left.
    + right. now exists r'.
Qed.

(** X18. The map [getDisplays] resolves with is keyed by the display
    names the workers give in their replies, not by the queues asked:
    every entry is the bounds of some available worker's reply under that
    reply's [displayName], every reply's [displayName] is a key, and a
    name is there once however many workers give it. *)
Theorem getDisplays_keys (w : World) (m : JsMap.t (Z * Z * Z * Z)) (w' : World) :
  DisplayContextFactory.getDisplays w = (Resolved m, w') ->
  JsMap.wf m
  /\ (forall k b, In (k, b) m ->
        exists dm r, In dm (availableDisplayNames (queues w))
                     /\ workers w dm get_display_bounds = Some r
                     /\ db_displayName r = k /\ db_bounds r = b)
  /\ (forall dm r, In dm (availableDisplayNames (queues w)) ->
                   workers w dm get_display_bounds = Some r ->
                   JsMap.has (db_displayName r) m = true).
Proof.
  unfold DisplayContextFactory.getDisplays, bind, ret.
  destruct (Promise_all _ w) as [o w1] eqn:E. destruct o as [bounds| |]; try discriminate.
  intros [= <- _].
  pose proof (Promise_all_calls_resolved get_display_bounds _ _ _ _ E) as F.
  split; [|split].
  - apply (fold_set_wf db_displayName db_bounds). apply JsMapFacts.wf_clear.
  - intros k b Hin. apply boundMap_In in Hin as [[]|[r [Hr [Hk Hb]]]].
    clear E. induction F as [|dm r0 dms rs Hd _ IH]; [destruct Hr|].
    destruct Hr as [->|Hr].
    + exists dm, r. split; [now left | now split].
    + destruct (IH Hr) as [dm' [r' [H1 H2]]]. exists dm', r'. split; [now right | exact H2].
  - intros dm r Hin Hw. apply boundMap_has. right. exists r. split; [|reflexivity].
    clear E. induction F as [|dm0 r0 dms rs Hd _ IH]; [destruct Hin|].
    destruct Hin as [->|Hin].
    + left. simpl in Hd, Hw. congruence.
    + right. now apply IH.
Qed.

Lemma getDisplays_keys_witness :
  JsMap.wf [("d1", (0, 0, 1920, 1080)%Z)]
  /\ (forall k b, In (k, b) [("d1", (0, 0, 1920, 1080)%Z)] ->
        exists dm r, In dm (availableDisplayNames (queues Fixture.w0))
                     /\ workers Fixture.w0 dm get_display_bounds = Some r
                     /\ db_displayName r = k /\ db_bounds r = b)
  /\ (forall dm r, In dm (availableDisplayNames (queues Fixture.w0)) ->
                   workers Fixture.w0 dm get_display_bounds = Some r ->
                   JsMap.has (db_displayName r) [("d1", (0, 0, 1920, 1080)%Z)] = true).
Proof.
  apply (getDisplays_keys Fixture.w0 [("d1", (0, 0, 1920, 1080)%Z)]
           (emits [Rpc "rpc-display-d1" get_display_bounds] Fixture.w0)).
  reflexivity.
Defined.

Lemma Set_spread_In (seen l : list string) (x : string) :
  In x (Set_spread seen l) <-> In x l /\ ~ In x seen.
Proof.
  revert seen. induction l as [|a l IH]; intros seen; simpl; [tauto|].
  destruct (existsb (String.eqb a) seen) eqn:E.
  - apply existsb_exists in E as [y [Hy Ey]]. apply String.eqb_eq in Ey. subst y.
    rewrite IH. split; [tauto|]. intros [[<-|H] Hn]; [contradiction | tauto].
  - assert (Ha : ~ In a seen).
    { intros Hin. apply not_true_iff_false in E. apply E, existsb_exists.
      exists a. split; [exact Hin | apply String.eqb_refl]. }
    simpl. rewrite IH. simpl. split.
    + intros [<-|[H Hn]]; [tauto|]. split; [now right | tauto].
    + intros [[<-|H] Hn]; [now left|].
      destruct (String.eqb_spec a x) as [->|Hne]; [now left|]. right. split; [exact H|].
      intros [E'|H']; [congruence | contradiction].
Qed.

Lemma Set_spread_NoDup (seen l : list string) : List.NoDup (Set_spread seen l).
Proof.
  revert seen. induction l as [|a l IH]; intros seen; simpl; [constructor|].
  destruct (existsb (String.eqb a) seen); [apply IH|].
  constructor; [|apply IH].
  rewrite Set_spread_In. simpl. tauto.
Qed.

(** X19. The list of contexts [list()] resolves with holds every context
    name some worker reports, holds no other name, and holds each name
    once. *)
Theorem list_then_each_once (lists : list (list string)) :
  List.NoDup (list_then lists)
  /\ forall x, In x (list_then lists) <-> exists l, In l lists /\ In x l.
Proof.
  unfold list_then. cbv zeta. split; [apply Set_spread_NoDup|].
  intros x. rewrite Set_spread_In.
  assert (C : forall (ls : list (list string)) acc,
             In x (List.fold_left (fun contextList l => contextList ++ l) ls acc)
             <-> In x acc \/ exists l, In l ls /\ In x l).
  { induction ls as [|l ls IH]; intros acc; simpl.
    - split; [tauto | intros [H|[l [[] _]]]; exact H].
    - rewrite IH, in_app_iff. split.
      + intros [[H|H]|[l' [H1 H2]]]; [tauto | right; exists l; tauto | right; exists l'; tauto].
      + intros [H|[l' [[<-|H1] H2]]]; [tauto | tauto | right; exists l'; tauto]. }
  rewrite C. simpl. tauto.
Qed.



(** What [setActive] adds to the trace: requests, and after them the
    [display.displayContext.changed] topic when it resolves after a
    switch. *)
Lemma setActive_trace (display_ctx_name : string) (reset : bool) (w : World)
  (o : outcome Value) (w' : World) :
  DisplayContextFactory.setActive display_ctx_name reset w = (o, w') ->
  exists es,
    Forall other_request es
    /\ trace w' =
         trace w ++ es
         ++ match o with
            | Resolved _ =>
                if bool_decide (Store.getState Store.activeDisplayContext w = Some display_ctx_name)
                then []
                else [Topic "display.displayContext.changed"
                        (displayContextChanged display_ctx_name
                           (Store.getState Store.activeDisplayContext w))]
            | _ => []
            end.
Proof.
  unfold DisplayContextFactory.setActive, Store.getset, DisplayContextFactory.on_, bind.
  fold (Store.getState Store.activeDisplayContext w).
  destruct (bool_decide (Store.getState Store.activeDisplayContext w = Some display_ctx_name))
    eqn:Hd; simpl negb; cbv iota.
  - intros [= <- <-]. exists []. split; [constructor|]. simpl. now rewrite app_nil_r.
  - fold (Store.setState Store.activeDisplayContext display_ctx_name w).
    pose proof (restoreFromDisplayWorkerStates_trace TypeScript reset
                  {| this := new_DisplayContext display_ctx_name [];
                     io := Store.setState Store.activeDisplayContext display_ctx_name w |})
      as [es [T F]].
    destruct (restoreFromDisplayWorkerStates _ _ _) as [o1 s'] eqn:Hr.
    simpl in T. destruct o1 as [m|e|]; intros [= <- <-]; exists es; (split; [exact F|]);
      simpl; rewrite T, ?app_nil_r, <- ?app_assoc; reflexivity.
Qed.

Lemma subscription_request (topic : string) (field : Payload -> option string)
  (c : DisplayContext) (es : list Event) :
  Forall other_request es -> List.filter (subscription topic field c) es = [].
Proof.
  induction 1 as [|e es He _ IH]; [reflexivity|].
  simpl. rewrite IH. now destruct e.
Qed.

(** X21. Who hears of a switch. When [setActive] switches to a context
    and reconciliation resolves, the messages it publishes call the
    handlers registered with [onActivated] exactly once on the contexts
    that bear the new name and not at all on the others, and call the
    handlers registered with [onDeactivated] exactly once on the contexts
    that bear the name read from the store and not at all on the others
    (on none when the store held no name). *)
Theorem setActive_notifies (display_ctx_name : string) (reset : bool) (w : World)
  (m : Value) (w' : World) (c : DisplayContext) :
  Store.getState Store.activeDisplayContext w <> Some display_ctx_name ->
  DisplayContextFactory.setActive display_ctx_name reset w = (Resolved m, w') ->
  let changed :=
    Topic "display.displayContext.changed"
      (displayContextChanged display_ctx_name
         (Store.getState Store.activeDisplayContext w)) in
  exists es,
    trace w' = trace w ++ es
    /\ List.filter (onActivated c) es
       = (if bool_decide (name c = display_ctx_name) then [changed] else [])
    /\ List.filter (onDeactivated c) es
       = (if bool_decide (Store.getState Store.activeDisplayContext w = Some (name c))
          then [changed] else []).
Proof.
  intros Hne H changed.
  destruct (setActive_trace _ _ _ _ _ H) as [es [F T]].
  rewrite bool_decide_false in T by exact Hne. fold changed in T.
  exists (es ++ [changed]). split; [exact T|].
  unfold onActivated, onDeactivated. rewrite !List.filter_app.
  rewrite (subscription_request _ details_displayContext c es F).
  rewrite (subscription_request _ details_lastDisplayContext c es F).
  simpl. split.
  - destruct (bool_decide (name c = display_ctx_name)) eqn:E.
    + apply bool_decide_eq_true in E. subst display_ctx_name.
      now rewrite bool_decide_true by reflexivity.
    + apply bool_decide_eq_false in E.
      rewrite bool_decide_false; [reflexivity|]. intros [= E']. now apply E.
  - destruct (bool_decide (Store.getState Store.activeDisplayContext w = Some (name c)));
      reflexivity.
Qed.

Lemma setActive_notifies_witness :
  exists es,
    trace (snd (DisplayContextFactory.setActive "A" false Fixture.w0)) = trace Fixture.w0 ++ es
    /\ List.filter (onActivated Fixture.B) es = []
    /\ List.filter (onDeactivated Fixture.B) es
       = [Topic "display.displayContext.changed" (displayContextChanged "A" (Some "B"))].
Proof.
  apply (setActive_notifies "A" false Fixture.w0
           VUndefined
           (snd (DisplayContextFactory.setActive "A" false Fixture.w0)) Fixture.B);
    [discriminate | reflexivity].
Defined.

(** X22. A switch that fails. When [setActive] does not resolve (it is
    rejected, or stays pending), the store nevertheless names the
    requested context as the active one, and nothing was published: what
    was sent are requests to workers, so no handler registered with
    [onActivated] or [onDeactivated] on any context is called. *)
Theorem setActive_fails_silently (display_ctx_name : string) (reset : bool) (w : World)
  (o : outcome Value) (w' : World) :
  DisplayContextFactory.setActive display_ctx_name reset w = (o, w') ->
  (forall m, o <> Resolved m) ->
  Store.getState Store.activeDisplayContext w' = Some display_ctx_name
  /\ exists es,
       trace w' = trace w ++ es
       /\ Forall other_request es
       /\ forall c, List.filter (onActivated c) es = []
                    /\ List.filter (onDeactivated c) es = [].
Proof.
  intros H Ho. split.
  - revert H.
    unfold DisplayContextFactory.setActive, Store.getset, DisplayContextFactory.on_, bind.
    destruct (negb _); [|intros [= <- _]; now destruct (Ho (VBool false))].
    destruct (restoreFromDisplayWorkerStates _ _ _) as [o1 s'] eqn:E.
    apply restoreFromDisplayWorkerStates_store in E. simpl in E.
    unfold Store.getState.
    destruct o1; intros [= <- <-]; simpl; destruct E as [-> | ->]; apply lookup_insert_eq.
  - destruct (setActive_trace _ _ _ _ _ H) as [es [F T]].
    exists es. split.
    + rewrite T. destruct o as [m| |]; [now destruct (Ho m) | |]; now rewrite app_nil_r.
    + split; [exact F|]. intros c. unfold onActivated, onDeactivated.
      split; now apply subscription_request.
Qed.

Lemma setActive_fails_silently_witness :
  Store.getState Store.activeDisplayContext
    (snd (DisplayContextFactory.setActive "A" false Fixture.nobody)) = Some "A"
  /\ exists es,
       trace (snd (DisplayContextFactory.setActive "A" false Fixture.nobody))
       = trace Fixture.nobody ++ es
       /\ Forall other_request es
       /\ forall c, List.filter (onActivated c) es = []
                    /\ List.filter (onDeactivated c) es = [].
Proof.
  apply (setActive_fails_silently "A" false Fixture.nobody
           (Rejected (NoDisplayWorkerFound (get_dw_context_windows_vbo "A")))
           (snd (DisplayContextFactory.setActive "A" false Fixture.nobody)));
    [reflexivity | discriminate].
Defined.

(** X23. Who hears of a close. When [close] resolves and no worker
    answered that it hid the context, the requests it sent are followed by
    one [display.displayContext.closed] topic whose details are the list
    of the workers' answers; a handler registered with [onClosed] looks
    for a context name in those details and finds none, so it is called
    for no context, this one included. *)
Theorem close_calls_no_onClosed (s : Obj) (m : list display_rpc_result) (s' : Obj) :
  close s = (Resolved m, s') ->
  existsb hidden m = false ->
  let closed := Topic "display.displayContext.closed" (displayContextClosed m) in
  trace (io s') =
    trace (io s) ++ sent (close_display_context (name (this s))) (io s) ++ [closed]
  /\ forall c,
       List.filter (onClosed c)
         (sent (close_display_context (name (this s))) (io s) ++ [closed]) = [].
Proof.
  intros H Hh closed. split.
  - revert H. unfold close, bind, liftIO.
    pose proof (_executeInAvailableDisplays_snd (close_display_context (name (this s))) (io s))
      as Hw.
    destruct (_executeInAvailableDisplays _ (io s)) as [o1 w1] eqn:E.
    simpl in Hw. subst w1.
    destruct o1 as [m1|e|]; try discriminate.
    rewrite close_scan_spec. cbn [fst snd this io].
    destruct (existsb hidden m1) eqn:Hh1; simpl negb; cbv iota.
    + intros [= <- _]. congruence.
    + intros [= <- <-]. cbn [io].
      match goal with
      | |- trace (match ?x with _ => _ end) = _ => destruct x as [x0|]
      end; [destruct (String.eqb _ _)|]; simpl; now rewrite <- app_assoc.
  - intros c. unfold onClosed. rewrite List.filter_app.
    rewrite (subscription_request _ _ c _ (sent_other (close_display_context (name (this s))) (io s) I)).
    reflexivity.
Qed.

Lemma close_calls_no_onClosed_witness :
  let s := {| this := Fixture.B; io := Fixture.w0 |} in
  let closed :=
    Topic "display.displayContext.closed"
      (displayContextClosed [Fixture.result "close-display-context" "d1"]) in
  trace (io (snd (close s))) =
    trace (io s) ++ sent (close_display_context "B") (io s) ++ [closed]
  /\ forall c,
       List.filter (onClosed c) (sent (close_display_context "B") (io s) ++ [closed]) = [].
Proof.
  apply (close_calls_no_onClosed {| this := Fixture.B; io := Fixture.w0 |}
           [Fixture.result "close-display-context" "d1"]
           (snd (close {| this := Fixture.B; io := Fixture.w0 |})));
    reflexivity.
Defined.

(** However [setActive] ends, the store names the requested context when
    it is over. *)
Lemma setActive_store (display_ctx_name : string) (reset : bool) (w : World) :
  Store.getState Store.activeDisplayContext
    (snd (DisplayContextFactory.setActive display_ctx_name reset w))
  = Some display_ctx_name.
Proof.
  unfold DisplayContextFactory.setActive, Store.getset, DisplayContextFactory.on_, bind.
  destruct (negb _); [|apply lookup_insert_eq].
  destruct (restoreFromDisplayWorkerStates _ _ _) as [o s'] eqn:E.
  apply restoreFromDisplayWorkerStates_store in E. simpl in E.
  unfold Store.getState.
  destruct o; simpl; destruct E as [-> | ->]; apply lookup_insert_eq.
Qed.

(** X24. However a call of [setActive] ends, resolved or not, the store
    names the requested context when it is over; so a second call for the
    same name finds it there, resolves with [false], and changes
    nothing: no request is sent and nothing is published. *)
Theorem setActive_twice (display_ctx_name : string) (reset reset' : bool) (w : World) :
  let w1 := snd (DisplayContextFactory.setActive display_ctx_name reset w) in
  Store.getState Store.activeDisplayContext w1 = Some display_ctx_name
  /\ DisplayContextFactory.setActive display_ctx_name reset' w1 = (Resolved (VBool false), w1).
Proof.
  cbv zeta.
  pose proof (setActive_store display_ctx_name reset w) as H.
  set (w1 := snd (DisplayContextFactory.setActive display_ctx_name reset w)) in *.
  clearbody w1. split; [exact H|].
  unfold DisplayContextFactory.setActive, Store.getset.
  unfold Store.getState in H. rewrite H.
  rewrite bool_decide_true by reflexivity. simpl.
  f_equal. apply with_store_id. now apply insert_id.
Qed.

(** X25. After [setActive], [getActive] finds the context: when the name
    is not the empty string, [getActive] called after [setActive] (however
    that ended) does not fail for want of an active context; it reconciles
    a new context of the requested name and settles as that reconciliation
    does, the object bears the requested name, and the store still names
    it afterwards. *)
Theorem setActive_then_getActive (display_ctx_name : string) (reset : bool) (w : World) :
  display_ctx_name <> "" ->
  let w1 := snd (DisplayContextFactory.setActive display_ctx_name reset w) in
  let r := restoreFromDisplayWorkerStates TypeScript false
             {| this := new_DisplayContext display_ctx_name []; io := w1 |} in
  DisplayContextFactory.getActive w1 =
    (match fst r with
     | Resolved _ => Resolved (this (snd r))
     | Rejected e => Rejected e
     | Pending => Pending
     end, io (snd r))
  /\ name (this (snd r)) = display_ctx_name
  /\ Store.getState Store.activeDisplayContext (io (snd r)) = Some display_ctx_name.
Proof.
  intros Hne. cbv zeta.
  pose proof (setActive_store display_ctx_name reset w) as H.
  set (w1 := snd (DisplayContextFactory.setActive display_ctx_name reset w)) in *.
  clearbody w1.
  unfold DisplayContextFactory.getActive, DisplayContextFactory.on_. rewrite H.
  unfold JsString.truthy.
  replace (String.eqb display_ctx_name "") with false
    by (symmetry; now apply String.eqb_neq).
  simpl negb. cbv iota.
  destruct (restoreFromDisplayWorkerStates TypeScript false
              {| this := new_DisplayContext display_ctx_name []; io := w1 |})
    as [o s'] eqn:E.
  simpl. split; [now destruct o|]. split.
  - now apply restoreFromDisplayWorkerStates_name in E.
  - apply restoreFromDisplayWorkerStates_store in E. simpl in E.
    unfold Store.getState in *. destruct E as [-> | ->]; [exact H | apply lookup_insert_eq].
Qed.

Lemma setActive_then_getActive_witness :
  let w1 := snd (DisplayContextFactory.setActive "A" false Fixture.w0) in
  let r := restoreFromDisplayWorkerStates TypeScript false
             {| this := new_DisplayContext "A" []; io := w1 |} in
  DisplayContextFactory.getActive w1 =
    (match fst r with
     | Resolved _ => Resolved (this (snd r))
     | Rejected e => Rejected e
     | Pending => Pending
     end, io (snd r))
  /\ name (this (snd r)) = "A"
  /\ Store.getState Store.activeDisplayContext (io (snd r)) = Some "A".
Proof.
  apply (setActive_then_getActive "A" false Fixture.w0). discriminate.
Defined.

(** X26. After closing the active context there is no active context:
    when [close] resolves on the context the store names, and no worker
    answered that it hid it, then, once the chain [close] started on the
    store has run, [getActive] rejects with the error "No display context
    is active" and sends nothing. *)
Theorem close_then_getActive (s : Obj) (m : list display_rpc_result) (s' : Obj) :
  close s = (Resolved m, s') ->
  existsb hidden m = false ->
  Store.getState Store.activeDisplayContext (io s) = Some (name (this s)) ->
  DisplayContextFactory.getActive (io s') = (Rejected NoDisplayContextActive, io s').
Proof.
  intros H Hh Hact.
  assert (Hs : Store.getState Store.activeDisplayContext (io s') = None).
  { revert H. unfold close, bind, liftIO.
    pose proof (_executeInAvailableDisplays_snd (close_display_context (name (this s))) (io s))
      as Hw.
    destruct (_executeInAvailableDisplays _ (io s)) as [o1 w1] eqn:E.
    simpl in Hw. subst w1.
    destruct o1 as [m1|e|]; try discriminate.
    rewrite close_scan_spec. cbn [fst snd this io].
    destruct (existsb hidden m1) eqn:Hh1; simpl negb; cbv iota.
    - intros [= <- _]. congruence.
    - intros [= _ <-]. cbn [io].
      unfold Store.getState in *. simpl. rewrite Hact. simpl.
      rewrite String.eqb_refl. simpl. apply lookup_delete_eq. }
  unfold DisplayContextFactory.getActive. now rewrite Hs.
Qed.

Lemma close_then_getActive_witness :
  DisplayContextFactory.getActive (io (snd (close {| this := Fixture.B; io := Fixture.w0 |})))
  = (Rejected NoDisplayContextActive,
     io (snd (close {| this := Fixture.B; io := Fixture.w0 |}))).
Proof.
  apply (close_then_getActive {| this := Fixture.B; io := Fixture.w0 |}
           [Fixture.result "close-display-context" "d1"]
           (snd (close {| this := Fixture.B; io := Fixture.w0 |})));
    reflexivity.
Defined.
